(** * OctoNag configuration: settings, access filter, identity resolver,
      credential injection and repository enumeration

    A shallow embedding of [src/octonag/configuration.py].

    - Python exceptions are values of [exn]; a computation that may raise
      returns a [result].
    - The module's process-wide sets [blocked] and [mapped] and the calls made
      to [logging] are fields of an explicit [state] that every call threads.
    - [Configuration], the module-level instance of [_config], is a Section
      variable of the decorators: it is built once and never assigned again.
    - A configuration file that parses into a mapping has entries of the
      types the YAML file is documented to have; every key may be missing (a
      [KeyError] on [configs[key]]) and the optional entries may be null.  A
      file may also parse into something that is not a mapping. *)

From stdpp Require Import gmap strings list fin_maps.
From Stdlib Require Import ZArith.

Open Scope string_scope.

(** ** Python values, exceptions and results *)

#[warnings="-register-all"]
Inductive value : Type :=
| VNone
| VBool (b : bool)
| VInt (n : Z)
| VStr (s : string)
| VList (xs : list value).

Inductive exn : Type :=
| KeyError (key : string)
| TypeError (what : string)
| AttributeError (attr : string)
| UnboundLocalError (var : string)
| FileNotFoundError (path : string)
| SystemExit (code : Z)
| StopIteration
| Exception (msg : string).

Inductive result (A : Type) : Type :=
| Ok (a : A)
| Raise (e : exn).
Arguments Ok {A} a.
Arguments Raise {A} e.


(** [None] for a missing optional string, as [os.getenv] returns it. *)
Definition of_optional (o : option string) : value :=
  match o with Some s => VStr s | None => VNone end.

(** ** Logging *)

Inductive level : Type := DEBUG | INFO | CRITICAL.

(** One call to [logging.debug], [logging.info] or [logging.critical], with
    the formatted message.  The handler installed by [basicConfig] prints the
    records at WARNING and above; the record of the call is kept whatever its
    level. *)
Definition log_record : Type := level * string.

(** ** Computations over a state that may raise *)

Definition act (S A : Type) : Type := S -> result A * S.

Definition ret {S A} (a : A) : act S A := fun s => (Ok a, s).
Definition raise {S A} (e : exn) : act S A := fun s => (Raise e, s).
Definition bind {S A B} (m : act S A) (k : A -> act S B) : act S B :=
  fun s => match m s with
           | (Ok a, s') => k a s'
           | (Raise e, s') => (Raise e, s')
           end.
Definition lift {S A} (r : result A) : act S A := fun s => (r, s).

Declare Scope act_scope.
Delimit Scope act_scope with act.
Notation "x <- m ;; k" := (bind m (fun x => k))
  (at level 100, m at next level, right associativity) : act_scope.
Notation "m ;;; k" := (bind m (fun _ => k))
  (at level 100, right associativity) : act_scope.

(** ** Ordered dictionaries

    A Python [dict] whose iteration order matters is a list of entries in
    insertion order; [d[k]] finds the entry of [k]. *)

Fixpoint odict_get {V} (d : list (string * V)) (k : string) : option V :=
  match d with
  | [] => None
  | (k', v) :: d' => if decide (k = k') then Some v else odict_get d' k
  end.

Definition odict_keys {V} (d : list (string * V)) : list string := d.*1.

(** [d[k]] *)
Definition odict_getitem {V} (d : list (string * V)) (k : string) : result V :=
  match odict_get d k with
  | Some v => Ok v
  | None => Raise (KeyError k)
  end.

(** ** The configuration document and the environment *)

(** The mapping [yaml.load] returns.  A field is [None] when its key is
    missing from the file; an optional entry is [Some None] when the file
    gives it no value (YAML null). *)
Record document : Type := {
  doc_use_jira : option bool;
  doc_manually_resolve_users : option (option (gmap string string));
  doc_repositories : option (list (string * list string));
  doc_whitelist : option (option (list string));
  doc_blacklist : option (option (list string));
  doc_ignore_no_assigned : option bool;
  doc_ignore_no_requested : option bool;
  doc_send_greeting : option bool;
  doc_default_email_domain : option string
}.

(** [configs[key]] *)
Definition subscript {A} (key : string) (field : option A) : result A :=
  match field with
  | Some v => Ok v
  | None => Raise (KeyError key)
  end.

(** What [open] and [yaml.load] make of the file at [conf/config.yaml]: it
    is not there, it does not parse, it parses into a mapping, or it parses
    into something else ([None] for an empty file, a list, a scalar). *)
Inductive file : Type :=
| Missing
| Malformed (error : string)
| Parsed (configs : document)
| NotMapping (parsed : value).

(** What [get_config_from_file] returns. *)
Inductive parse : Type :=
| Mapping (configs : document)
| Other (parsed : value).

(** The text of the [TypeError] that [v['key']] raises for a value that is
    not a mapping, as CPython 3.11 words it. *)
Definition not_subscriptable (v : value) : string :=
  match v with
  | VNone => "'NoneType' object is not subscriptable"
  | VBool _ => "'bool' object is not subscriptable"
  | VInt _ => "'int' object is not subscriptable"
  | VStr _ => "string indices must be integers, not 'str'"
  | VList _ => "list indices must be integers or slices, not str"
  end.

(** [configs[key]] on what was parsed. *)
Definition getitem {A} (configs : parse) (key : string)
    (field : document -> option A) : result A :=
  match configs with
  | Mapping d => subscript key (field d)
  | Other v => Raise (TypeError (not_subscriptable v))
  end.

(** [os.getenv] *)
Definition getenv (environ : gmap string string) (name : string) : option string :=
  environ !! name.

(** ** Whitelist and blacklist after [x and {*x}] *)

(** A falsy [x] is kept as it is; a truthy one becomes the set of its
    elements. *)
Inductive collection : Type :=
| Raw (x : option (list string))
| NameSet (s : gset string).

Definition truthy_list (x : option (list string)) : bool :=
  match x with
  | Some (_ :: _) => true
  | _ => false
  end.

Definition truthy (c : collection) : bool :=
  match c with
  | Raw x => truthy_list x
  | NameSet s => negb (bool_decide (s = ∅))
  end.

(** [x and {*x}] *)
Definition and_set (x : option (list string)) : collection :=
  match x with
  | Some (n :: ns) => NameSet (list_to_set (n :: ns))
  | _ => Raw x
  end.

(** [name in c] *)
Definition contains (c : collection) (name : string) : result bool :=
  match c with
  | NameSet s => Ok (bool_decide (name ∈ s))
  | Raw (Some l) => Ok (bool_decide (name ∈ l))
  | Raw None => Raise (TypeError "argument of type 'NoneType' is not iterable")
  end.

(** ** Settings *)

Module _config.

(** The attributes of the [_config] instance.  [jira_user] and [jira_pass]
    are assigned only when [use_jira] is set: [None] here is an attribute
    that does not exist, [Some None] one that holds Python's [None]. *)
Record t : Type := {
  github_token : option string;
  slack_token : option string;
  jira_user : option (option string);
  jira_pass : option (option string);
  map_users : option (gmap string string);
  repositories : list (string * list string);
  whitelist : collection;
  blacklist : collection;
  use_jira : bool;
  ignore_assigned : bool;
  ignore_requested : bool;
  send_greeting : bool;
  debug_uid : option string;
  default_email_domain : string
}.

End _config.

(** [logging.debug], [logging.info], [logging.critical] while loading. *)
Definition logging (lvl : level) (msg : string) : act (list log_record) unit :=
  fun logs => (Ok tt, (logs ++ [(lvl, msg)])%list).

Definition config_file : string := "conf/config.yaml".

Definition get_config_from_file (f : file) : act (list log_record) parse :=
  (logging DEBUG ("Attempting to read configuration file " ++ config_file) ;;;
   match f with
   | Missing => raise (FileNotFoundError config_file)
   | Malformed e =>
       logging CRITICAL e ;;;
       logging CRITICAL ("Error reading configuration file " ++ config_file) ;;;
       raise (SystemExit 1)
   | Parsed configs => ret (Mapping configs)
   | NotMapping parsed => ret (Other parsed)
   end)%act.

(** [_config.__init__] *)
Definition __init__ (f : file) (environ : gmap string string)
  : act (list log_record) _config.t :=
  (configs <- get_config_from_file f ;;
   let github_token := getenv environ "GITHUB_API_TOKEN" in
   let slack_token := getenv environ "SLACK_API_TOKEN" in
   use_jira <- lift (getitem configs "use_jira" doc_use_jira) ;;
   jira <- (if use_jira : bool
            then logging DEBUG "Using JIRA credentials" ;;;
                 ret (Some (getenv environ "JIRA_USER"),
                      Some (getenv environ "JIRA_PASS"))
            else ret (None, None)) ;;
   match slack_token, github_token with
   | Some _, Some _ =>
       map_users <- lift (getitem configs "manually_resolve_users"
                            doc_manually_resolve_users) ;;
       repositories <- lift (getitem configs "repositories" doc_repositories) ;;
       whitelist <- lift (getitem configs "whitelist" doc_whitelist) ;;
       blacklist <- lift (getitem configs "blacklist" doc_blacklist) ;;
       ignore_assigned <- lift (getitem configs "ignore_no_assigned"
                                  doc_ignore_no_assigned) ;;
       ignore_requested <- lift (getitem configs "ignore_no_requested"
                                   doc_ignore_no_requested) ;;
       send_greeting <- lift (getitem configs "send_greeting" doc_send_greeting) ;;
       default_email_domain <- lift (getitem configs "default_email_domain"
                                       doc_default_email_domain) ;;
       ret {| _config.github_token := github_token;
              _config.slack_token := slack_token;
              _config.jira_user := jira.1;
              _config.jira_pass := jira.2;
              _config.map_users := map_users;
              _config.repositories := repositories;
              _config.whitelist := and_set whitelist;
              _config.blacklist := and_set blacklist;
              _config.use_jira := use_jira;
              _config.ignore_assigned := ignore_assigned;
              _config.ignore_requested := ignore_requested;
              _config.send_greeting := send_greeting;
              _config.debug_uid := getenv environ "DEBUG_UID";
              _config.default_email_domain := default_email_domain |}
   | _, _ =>
       logging CRITICAL "Slack or Github tokens not configured" ;;;
       raise (SystemExit 1)
   end)%act.

(** [Configuration = _config()], run with no log record made yet. *)
Definition load (f : file) (environ : gmap string string)
  : result _config.t * list log_record :=
  __init__ f environ [].

(** ** Process state and wrapped functions *)

(** One call that reached a business-logic function: its label, positional
    arguments and keyword arguments. *)
Record invocation : Type := Invocation {
  inv_function : string;
  inv_args : list value;
  inv_kwargs : gmap string value
}.

(** [blocked] and [mapped] are the module's two sets; [records] are the calls
    made to [logging] since the module was imported, oldest first; [calls]
    are the invocations the business-logic functions have seen. *)
Record state : Type := State {
  blocked : gset string;
  mapped : gset string;
  records : list log_record;
  calls : list invocation
}.

(** The state right after import: [blocked = set()], [mapped = set()]. *)
Definition initial (logs : list log_record) : state :=
  {| blocked := ∅; mapped := ∅; records := logs; calls := [] |}.

Definition info (msg : string) (st : state) : state :=
  {| blocked := blocked st; mapped := mapped st;
     records := (records st ++ [(INFO, msg)])%list; calls := calls st |}.

(** [blocked.add(name)] *)
Definition blocked_add (name : string) (st : state) : state :=
  {| blocked := {[name]} ∪ blocked st; mapped := mapped st;
     records := records st; calls := calls st |}.

(** [mapped.add(name)] *)
Definition mapped_add (name : string) (st : state) : state :=
  {| blocked := blocked st; mapped := {[name]} ∪ mapped st;
     records := records st; calls := calls st |}.

Definition called (i : invocation) (st : state) : state :=
  {| blocked := blocked st; mapped := mapped st;
     records := records st; calls := (calls st ++ [i])%list |}.

(** A function called with positional and keyword arguments only. *)
Abbreviation callable :=
  (list value -> gmap string value -> state -> result value * state).

(** A function whose first positional argument is a name, followed by
    further positional and keyword arguments. *)
Abbreviation named :=
  (string -> list value -> gmap string value -> state -> result value * state).

(** A business-logic function that leaves the module alone: it notes the
    call and answers from its arguments. *)
Definition business (label : string)
    (body : list value -> gmap string value -> result value) : callable :=
  fun args kwargs st =>
    (body args kwargs, called (Invocation label args kwargs) st).

(** The same function seen by a wrapper that passes [name] first. *)
Definition by_name (f : callable) : named :=
  fun name args kwargs st => f (VStr name :: args) kwargs st.

(** [m[k]], [bool(m)] and [k in m] on [Configuration.map_users]. *)
Definition map_getitem (m : option (gmap string string)) (k : string)
  : result string :=
  match m with
  | None => Raise (TypeError "'NoneType' object is not subscriptable")
  | Some d => match d !! k with
              | Some v => Ok v
              | None => Raise (KeyError k)
              end
  end.

Definition map_truthy (m : option (gmap string string)) : bool :=
  match m with
  | None => false
  | Some d => negb (bool_decide (d = ∅))
  end.

Definition map_contains (m : option (gmap string string)) (k : string)
  : result bool :=
  match m with
  | None => Raise (TypeError "argument of type 'NoneType' is not iterable")
  | Some d => Ok (bool_decide (is_Some (d !! k)))
  end.

(** ** The decorators *)

Section Decorators.

Variable Configuration : _config.t.

(** The [collection] local of [restrict]'s wrapper. *)
Definition collection_of (list_type : string) : collection :=
  if decide (list_type = "blacklist") then _config.blacklist Configuration
  else if decide (list_type = "whitelist") then _config.whitelist Configuration
  else Raw None.

Definition block_message (name list_type : string) : string :=
  let modifier_word := if decide (list_type = "whitelist") then "not" else "" in
  "User " ++ name ++ " " ++ modifier_word ++ " in " ++ list_type
    ++ ", blocking lookup".

Definition restrict (list_type : string) (func : named) : named :=
  fun name args kwargs st =>
    let collection := collection_of list_type in
    if decide (name ∈ blocked st) then (Ok VNone, st)
    else if truthy collection then
      match contains collection name with
      | Raise e => (Raise e, st)
      | Ok present =>
          if xorb (bool_decide (list_type = "whitelist")) present
          then (Ok VNone, blocked_add name (info (block_message name list_type) st))
          else func name args kwargs st
      end
    else func name args kwargs st.

(** The locals [usr] and [pwd] of [with_credentials]'s wrapper: [Ok None]
    when the branch that assigns them is not taken. *)
Definition credentials_of (service : string)
  : result (option (option string * option string)) :=
  if decide (service = "Jira") then
    match _config.jira_user Configuration with
    | None => Raise (AttributeError "jira_user")
    | Some usr =>
        match _config.jira_pass Configuration with
        | None => Raise (AttributeError "jira_pass")
        | Some pwd => Ok (Some (usr, pwd))
        end
    end
  else Ok None.

Definition with_credentials (service : string) (func : callable) : callable :=
  fun args kwargs st =>
    match credentials_of service with
    | Raise e => (Raise e, st)
    | Ok None => (Raise (UnboundLocalError "usr"), st)
    | Ok (Some (usr, pwd)) =>
        let new_kwargs :=
          <["_pwd" := of_optional pwd]> (<["_usr" := of_optional usr]> kwargs) in
        func args new_kwargs st
    end.

(** The local [token] of [with_token]'s wrapper. *)
Definition token_of (service : string) : option string :=
  if decide (service = "Github") then _config.github_token Configuration
  else _config.slack_token Configuration.

Definition with_token (service : string) (func : callable) : callable :=
  fun args kwargs st =>
    let token := token_of service in
    let new_kwargs := <["_token" := of_optional token]> kwargs in
    func args new_kwargs st.

Definition repositories (func : named) : named :=
  fun organization args kwargs st =>
    match odict_getitem (_config.repositories Configuration) organization with
    | Raise e => (Raise e, st)
    | Ok repos =>
        let new_kwargs := <["_repositories" := VList (VStr <$> repos)]> kwargs in
        func organization args new_kwargs st
    end.

Definition resolve_message (name mapped_name : string) : string :=
  name ++ " in manual mapping configuration, doing lookup on " ++ mapped_name.

Definition manually_resolve (func : named) : named :=
  fun name args kwargs st =>
    let map_users := _config.map_users Configuration in
    if decide (name ∈ mapped st) then
      match map_getitem map_users name with
      | Raise e => (Raise e, st)
      | Ok mapped_name => func mapped_name args kwargs st
      end
    else if map_truthy map_users then
      match map_contains map_users name with
      | Raise e => (Raise e, st)
      | Ok true =>
          match map_getitem map_users name with
          | Raise e => (Raise e, st)
          | Ok mapped_name =>
              func mapped_name args kwargs
                (mapped_add name (info (resolve_message name mapped_name) st))
          end
      | Ok false => func name args kwargs st
      end
    else func name args kwargs st.

End Decorators.

(** ** The repository generator *)

(** A generator object between two calls of [next]: not started yet, suspended
    at the [yield] with what its two loops have left, or exhausted. *)
Inductive frame : Type :=
| Created (repos : option (list (string * list string)))
| Suspended (repositories : list (string * list string))
    (owners : list string) (owner : string) (rest : list string)
| Finished.

(** The outer loop from its next owner on, up to the next [yield]. *)
Fixpoint resume_loop (repositories : list (string * list string))
    (owners : list string) : result (string * string) * frame :=
  match owners with
  | [] => (Raise StopIteration, Finished)
  | owner :: owners' =>
      match odict_getitem repositories owner with
      | Raise e => (Raise e, Finished)
      | Ok [] => resume_loop repositories owners'
      | Ok (repository :: rest) =>
          (Ok (owner, repository), Suspended repositories owners' owner rest)
      end
  end.

Section Generator.

Variable Configuration : _config.t.

(** The body of [repository_generator] run from where the frame stands to
    the next [yield], or to its end. *)
Definition resume (fr : frame) : result (string * string) * frame :=
  match fr with
  | Created repos =>
      let repositories :=
        match repos with
        | None => _config.repositories Configuration
        | Some given => given
        end in
      resume_loop repositories (odict_keys repositories)
  | Suspended repositories owners owner (repository :: rest) =>
      (Ok (owner, repository), Suspended repositories owners owner rest)
  | Suspended repositories owners owner [] =>
      resume_loop repositories owners
  | Finished => (Raise StopIteration, Finished)
  end.

(** Calling [repository_generator] allocates a generator object and runs
    none of its body; the object is named by its index in the heap. *)
Definition repository_generator (repos : option (list (string * list string)))
    (heap : list frame) : nat * list frame :=
  (length heap, (heap ++ [Created repos])%list).

(** [next(g)]; [None] when [g] names no generator of the heap. *)
Definition next (g : nat) (heap : list frame)
  : option (result (string * string) * list frame) :=
  match heap !! g with
  | None => None
  | Some fr => let (r, fr') := resume fr in Some (r, <[g := fr']> heap)
  end.

(** [list(itertools.islice(g, n))]: at most [n] items. *)
Fixpoint islice (n : nat) (g : nat) (heap : list frame)
  : list (string * string) * list frame :=
  match n with
  | 0 => ([], heap)
  | S n' =>
      match next g heap with
      | Some (Ok p, heap') =>
          let (ps, heap'') := islice n' g heap' in (p :: ps, heap'')
      | Some (Raise _, heap') => ([], heap')
      | None => ([], heap)
      end
  end.

(** [list(g)]: every item up to [StopIteration]; [None] when [fuel] calls
    of [next] do not reach the end. *)
Fixpoint collect (fuel : nat) (g : nat) (heap : list frame)
  : option (result (list (string * string)) * list frame) :=
  match fuel with
  | 0 => None
  | S fuel' =>
      match next g heap with
      | None => None
      | Some (Raise StopIteration, heap') => Some (Ok [], heap')
      | Some (Raise e, heap') => Some (Raise e, heap')
      | Some (Ok p, heap') =>
          match collect fuel' g heap' with
          | Some (Ok ps, heap'') => Some (Ok (p :: ps), heap'')
          | other => other
          end
      end
  end.

End Generator.

(** The pairs of a repository mapping, owner by owner in the mapping's
    order and, for one owner, in the order of its repository list. *)
Definition pairs (d : list (string * list string)) : list (string * string) :=
  flat_map (fun entry => pair entry.1 <$> entry.2) d.

(** ** The process run *)

Section Process.

Variable Configuration : _config.t.

(** A function of the other modules: it writes neither [blocked] nor
    [mapped]. *)
Definition external (f : named) : Prop :=
  ∀ name args kwargs st,
    blocked (f name args kwargs st).2 = blocked st
    ∧ mapped (f name args kwargs st).2 = mapped st.

(** The functions the program calls by name: those of the other modules,
    under any stack of this module's name-first decorators. *)
Inductive decorated : named -> Prop :=
| decorated_external f : external f -> decorated f
| decorated_restrict list_type f :
    decorated f -> decorated (restrict Configuration list_type f)
| decorated_manually_resolve f :
    decorated f -> decorated (manually_resolve Configuration f)
| decorated_repositories f :
    decorated f -> decorated (repositories Configuration f).

(** One call made by the program. *)
Record call : Type := Call {
  target : named;
  call_name : string;
  call_args : list value;
  call_kwargs : gmap string value
}.

Definition step (st : state) (c : call) : state :=
  (target c (call_name c) (call_args c) (call_kwargs c) st).2.

(** The state after the calls [cs], made one after the other. *)
Definition run (cs : list call) (st : state) : state := foldl step st cs.

(** The keys of [Configuration.map_users]. *)
Definition map_keys : gset string :=
  match _config.map_users Configuration with
  | Some d => dom d
  | None => ∅
  end.

End Process.

(** The names a collection holds. *)
Definition names_of (c : collection) : gset string :=
  match c with
  | NameSet s => s
  | Raw (Some l) => list_to_set l
  | Raw None => ∅
  end.

(** ** Loading *)

(** Both tokens are in the environment. *)
Definition has_tokens (environ : gmap string string) : bool :=
  bool_decide (is_Some (getenv environ "GITHUB_API_TOKEN"))
  && bool_decide (is_Some (getenv environ "SLACK_API_TOKEN")).



(** A complete document that turns Jira on. *)
Definition jira_document : document := {|
  doc_use_jira := Some true;
  doc_manually_resolve_users := Some (Some {[ "jdoe" := "john.doe" ]});
  doc_repositories := Some [("octo", ["nag"; "cat"]); ("solo", ["tool"])];
  doc_whitelist := Some (Some ["alice"]);
  doc_blacklist := Some (Some ["eve"]);
  doc_ignore_no_assigned := Some true;
  doc_ignore_no_requested := Some false;
  doc_send_greeting := Some true;
  doc_default_email_domain := Some "example.com"
|}.

(** An environment with both tokens and no Jira credential. *)
Definition token_environ : gmap string string :=
  {[ "GITHUB_API_TOKEN" := "gh-token"; "SLACK_API_TOKEN" := "slack-token" ]}.

(** The settings [jira_document] and [token_environ] load into. *)
Definition example_settings : _config.t := {|
  _config.github_token := Some "gh-token";
  _config.slack_token := Some "slack-token";
  _config.jira_user := Some None;
  _config.jira_pass := Some None;
  _config.map_users := Some {[ "jdoe" := "john.doe" ]};
  _config.repositories := [("octo", ["nag"; "cat"]); ("solo", ["tool"])];
  _config.whitelist := NameSet {[ "alice" ]};
  _config.blacklist := NameSet {[ "eve" ]};
  _config.use_jira := true;
  _config.ignore_assigned := true;
  _config.ignore_requested := false;
  _config.send_greeting := true;
  _config.debug_uid := None;
  _config.default_email_domain := "example.com"
|}.

(** The mapping with no key at all. *)
Definition empty_document : document := {|
  doc_use_jira := None;
  doc_manually_resolve_users := None;
  doc_repositories := None;
  doc_whitelist := None;
  doc_blacklist := None;
  doc_ignore_no_assigned := None;
  doc_ignore_no_requested := None;
  doc_send_greeting := None;
  doc_default_email_domain := None
|}.

(** A complete document with Jira off, an empty whitelist and no blacklist. *)
Definition open_document : document := {|
  doc_use_jira := Some false;
  doc_manually_resolve_users := Some None;
  doc_repositories := Some [("octo", ["nag"])];
  doc_whitelist := Some (Some []);
  doc_blacklist := Some None;
  doc_ignore_no_assigned := Some false;
  doc_ignore_no_requested := Some false;
  doc_send_greeting := Some false;
  doc_default_email_domain := Some "example.com"
|}.

(** The settings [open_document] and [token_environ] load into. *)
Definition open_settings : _config.t := {|
  _config.github_token := Some "gh-token";
  _config.slack_token := Some "slack-token";
  _config.jira_user := None;
  _config.jira_pass := None;
  _config.map_users := None;
  _config.repositories := [("octo", ["nag"])];
  _config.whitelist := Raw (Some []);
  _config.blacklist := Raw None;
  _config.use_jira := false;
  _config.ignore_assigned := false;
  _config.ignore_requested := false;
  _config.send_greeting := false;
  _config.debug_uid := None;
  _config.default_email_domain := "example.com"
|}.

(** A business-logic function that answers with its positional arguments. *)
Definition lookup : named :=
  by_name (business "lookup" (fun args _ => Ok (VList args))).

(** A repository mapping with an owner that has no repository. *)
Definition example_repositories : list (string * list string) :=
  [("octo", ["nag"; "cat"]); ("empty", []); ("solo", ["tool"])].

(** ** What a run preserves *)

Section Growth.

Variable Configuration : _config.t.

(** From [st] to [st']: no name leaves [blocked] or [mapped], and [mapped]
    stays within the keys of the manual mapping if it was. *)
Definition grows (st st' : state) : Prop :=
  blocked st ⊆ blocked st'
  ∧ mapped st ⊆ mapped st'
  ∧ (mapped st ⊆ map_keys Configuration → mapped st' ⊆ map_keys Configuration).

End Growth.

(** ** What a generator has left *)

(** The pairs of the owners [owners], each with the list [repositories[owner]]. *)
Definition looked_up (repositories : list (string * list string))
    (owners : list string) : list (string * string) :=
  flat_map (fun owner => match odict_get repositories owner with
                         | Some rs => pair owner <$> rs
                         | None => []
                         end) owners.

(** The owners the outer loop has left are keys of the mapping it reads. *)
Definition ready (fr : frame) : Prop :=
  match fr with
  | Suspended repositories owners _ _ =>
      Forall (fun owner => is_Some (odict_get repositories owner)) owners
  | _ => True
  end.

Section Remaining.

Variable Configuration : _config.t.

(** The pairs a generator in frame [fr] has yet to yield. *)
Definition remaining (fr : frame) : list (string * string) :=
  match fr with
  | Created repos =>
      let repositories := default (_config.repositories Configuration) repos in
      looked_up repositories (odict_keys repositories)
  | Suspended repositories owners owner rest =>
      ((pair owner <$> rest) ++ looked_up repositories owners)%list
  | Finished => []
  end.

End Remaining.

(** ** Headers, the Slack token and the debug user *)

(** An optional string as an f-string prints it. *)
Definition formatted (o : option string) : string :=
  match o with Some s => s | None => "None" end.

(** [make_header], the local function of [get_header].  It is called with no
    argument of its own, so [_token] is the one keyword argument it gets,
    the token [with_token] puts there. *)
Definition make_header (_token : option string) : list (string * string) :=
  [("Authorization", "Bearer " ++ formatted _token)].

Section Accessors.

Variable Configuration : _config.t.

Definition get_header (service : string) : list (string * string) :=
  make_header (token_of Configuration service).

Definition get_slack_token : option string :=
  _config.slack_token Configuration.

(** The wrapper of [debug]: the [uid] it is called with is dropped and
    [Configuration.debug_uid] goes first in its place. *)
Definition debug (func : callable) (uid : value) : callable :=
  fun args kwargs st =>
    func (of_optional (_config.debug_uid Configuration) :: args) kwargs st.

End Accessors.

(** ** Reading order of the document *)

Definition or_else {A} (key : string) (field : option A) (rest : option string)
  : option string :=
  match field with
  | None => Some key
  | Some _ => rest
  end.

(** The first key, in the order [__init__] subscripts [configs], that the
    document lacks. *)
Definition first_missing (configs : document) : option string :=
  or_else "use_jira" (doc_use_jira configs)
    (or_else "manually_resolve_users" (doc_manually_resolve_users configs)
       (or_else "repositories" (doc_repositories configs)
          (or_else "whitelist" (doc_whitelist configs)
             (or_else "blacklist" (doc_blacklist configs)
                (or_else "ignore_no_assigned" (doc_ignore_no_assigned configs)
                   (or_else "ignore_no_requested" (doc_ignore_no_requested configs)
                      (or_else "send_greeting" (doc_send_greeting configs)
                         (or_else "default_email_domain"
                            (doc_default_email_domain configs) None)))))))).

Definition is_critical (r : log_record) : bool :=
  match r.1 with CRITICAL => true | _ => false end.

(** A document without the key [repositories]. *)
Definition partial_document : document := {|
  doc_use_jira := Some false;
  doc_manually_resolve_users := Some None;
  doc_repositories := None;
  doc_whitelist := Some None;
  doc_blacklist := None;
  doc_ignore_no_assigned := Some false;
  doc_ignore_no_requested := Some false;
  doc_send_greeting := Some false;
  doc_default_email_domain := Some "example.com"
|}.

(** An environment with the tokens, the Jira credentials and a debug user. *)
Definition full_environ : gmap string string :=
  {[ "GITHUB_API_TOKEN" := "gh-token"; "SLACK_API_TOKEN" := "slack-token";
     "JIRA_USER" := "jira-bot"; "JIRA_PASS" := "secret";
     "DEBUG_UID" := "U123" ]}.

(** The settings [jira_document] and [full_environ] load into. *)
Definition full_settings : _config.t := {|
  _config.github_token := Some "gh-token";
  _config.slack_token := Some "slack-token";
  _config.jira_user := Some (Some "jira-bot");
  _config.jira_pass := Some (Some "secret");
  _config.map_users := Some {[ "jdoe" := "john.doe" ]};
  _config.repositories := [("octo", ["nag"; "cat"]); ("solo", ["tool"])];
  _config.whitelist := NameSet {[ "alice" ]};
  _config.blacklist := NameSet {[ "eve" ]};
  _config.use_jira := true;
  _config.ignore_assigned := true;
  _config.ignore_requested := false;
  _config.send_greeting := true;
  _config.debug_uid := Some "U123";
  _config.default_email_domain := "example.com"
|}.

(** A business-logic function called with positional arguments only. *)
Definition notify : callable :=
  business "notify" (fun args _ => Ok (VList args)).

(** Settings whose whitelist holds a name that the manual mapping renames. *)
Definition renaming_settings : _config.t := {|
  _config.github_token := Some "gh-token";
  _config.slack_token := Some "slack-token";
  _config.jira_user := None;
  _config.jira_pass := None;
  _config.map_users := Some {[ "jdoe" := "john.doe" ]};
  _config.repositories := [("octo", ["nag"; "cat"]); ("solo", ["tool"])];
  _config.whitelist := NameSet {[ "jdoe" ]};
  _config.blacklist := NameSet {[ "jdoe"; "eve" ]};
  _config.use_jira := false;
  _config.ignore_assigned := false;
  _config.ignore_requested := false;
  _config.send_greeting := false;
  _config.debug_uid := None;
  _config.default_email_domain := "example.com"
|}.

(** * Facts *)

(** ** Results and options *)

Lemma bool_decide_is_Some {A} (o : option A) :
  bool_decide (is_Some o) = match o with Some _ => true | None => false end.
Proof.
  destruct o.
  - apply bool_decide_eq_true. eauto.
  - apply bool_decide_eq_false. intros [? ?]. discriminate.
Qed.

Lemma odict_get_is_Some {V} (d : list (string * V)) k :
  is_Some (odict_get d k) ↔ k ∈ odict_keys d.
Proof.
  unfold odict_keys. induction d as [| [k' v] d IH]; simpl.
  - split; [intros [? ?]; discriminate | intros ?%elem_of_nil; done].
  - rewrite elem_of_cons. destruct (decide (k = k')) as [-> | Hne].
    + split; eauto.
    + rewrite IH. split; [eauto | intros [? | ?]; done].
Qed.

(** ** Loading the settings *)

Ltac run_load :=
  unfold load, __init__, get_config_from_file, getitem, bind, logging, lift,
    ret, raise;
  simpl.

(** One case per key [__init__] reads, in the order it reads them. *)
Ltac load_cases :=
  repeat match goal with
         | |- context [subscript _ ?x] => destruct x; simpl
         end.

Example load_example :
  load (Parsed jira_document) token_environ
  = (Ok example_settings,
     [(DEBUG, "Attempting to read configuration file conf/config.yaml");
      (DEBUG, "Using JIRA credentials")]).
Proof. vm_compute. reflexivity. Qed.

Example load_open_example :
  load (Parsed open_document) token_environ
  = (Ok open_settings,
     [(DEBUG, "Attempting to read configuration file conf/config.yaml")]).
Proof. vm_compute. reflexivity. Qed.

Lemma load_unparsed environ :
  load Missing environ
  = (Raise (FileNotFoundError config_file),
     [(DEBUG, "Attempting to read configuration file conf/config.yaml")])
  ∧ ∀ e, load (Malformed e) environ
         = (Raise (SystemExit 1),
            [(DEBUG, "Attempting to read configuration file conf/config.yaml");
             (CRITICAL, e);
             (CRITICAL, "Error reading configuration file conf/config.yaml")]).
Proof. split; reflexivity. Qed.

(** A parse that is not a mapping fails at [configs['use_jira']], before the
    token check, with nothing logged but the first DEBUG record. *)
Lemma load_not_mapping parsed environ :
  load (NotMapping parsed) environ
  = (Raise (TypeError (not_subscriptable parsed)),
     [(DEBUG, "Attempting to read configuration file conf/config.yaml")]).
Proof. reflexivity. Qed.



(** The Jira credentials are read, when [use_jira] is set, and never looked
    at: the settings hold whatever [os.getenv] returned. *)
Lemma load_jira_unchecked f environ cfg logs :
  load f environ = (Ok cfg, logs) →
  _config.jira_user cfg
  = (if _config.use_jira cfg then Some (getenv environ "JIRA_USER") else None)
  ∧ _config.jira_pass cfg
    = (if _config.use_jira cfg then Some (getenv environ "JIRA_PASS") else None)
  ∧ is_Some (_config.github_token cfg)
  ∧ is_Some (_config.slack_token cfg).
Proof.
  destruct f as [| e | configs | parsed];
    [discriminate | discriminate | | discriminate].
  run_load. destruct configs as [uj mu rp wl bl ia ir sg ded]; simpl.
  destruct uj as [[]|]; simpl;
    destruct (getenv environ "SLACK_API_TOKEN") eqn:Hs,
             (getenv environ "GITHUB_API_TOKEN") eqn:Hg; simpl;
    load_cases; try discriminate;
    intros [= <- _]; simpl; rewrite ?Hs, ?Hg; eauto.
Qed.

Lemma load_lists configs environ cfg logs :
  load (Parsed configs) environ = (Ok cfg, logs) →
  ∃ wl bl,
    doc_whitelist configs = Some wl ∧ doc_blacklist configs = Some bl
    ∧ _config.whitelist cfg = and_set wl ∧ _config.blacklist cfg = and_set bl.
Proof.
  run_load. destruct configs as [uj mu rp wl bl ia ir sg ded]; simpl.
  destruct uj as [[]|]; simpl;
    destruct (getenv environ "SLACK_API_TOKEN"),
             (getenv environ "GITHUB_API_TOKEN"); simpl;
    load_cases; try discriminate;
    intros [= <- _]; simpl; eexists _, _; repeat split.
Qed.






(** ** Collections and the manual mapping *)

Lemma contains_names_of c name :
  truthy c = true →
  contains c name = Ok (bool_decide (name ∈ names_of c)).
Proof.
  destruct c as [[l|]|s]; simpl; try discriminate; intros _; f_equal.
  apply bool_decide_ext. by rewrite elem_of_list_to_set.
Qed.

Lemma and_set_falsy x : truthy_list x = false → truthy (and_set x) = false.
Proof. by destruct x as [[|]|]. Qed.

Lemma map_getitem_Ok m name v :
  map_getitem m name = Ok v ↔ ∃ d, m = Some d ∧ d !! name = Some v.
Proof.
  unfold map_getitem. destruct m as [d|].
  - destruct (d !! name) eqn:E; split.
    + intros [= ->]. eauto.
    + intros (d' & [= <-] & H). congruence.
    + discriminate.
    + intros (d' & [= <-] & H). congruence.
  - split; [discriminate | intros (d & H & _); discriminate].
Qed.

Lemma map_getitem_present m name v :
  map_getitem m name = Ok v →
  map_truthy m = true ∧ map_contains m name = Ok true.
Proof.
  intros (d & -> & Hd)%map_getitem_Ok. simpl. split.
  - apply negb_true_iff, bool_decide_eq_false. intros ->.
    by rewrite lookup_empty in Hd.
  - f_equal. apply bool_decide_eq_true. eauto.
Qed.

(** ** The decorators, call by call *)

Section DecoratorFacts.

Variable Configuration : _config.t.

Lemma grows_refl st : grows Configuration st st.
Proof. by repeat split. Qed.

Lemma grows_trans st1 st2 st3 :
  grows Configuration st1 st2 → grows Configuration st2 st3 →
  grows Configuration st1 st3.
Proof.
  intros (Hb & Hm & Hk) (Hb' & Hm' & Hk'). repeat split.
  - by transitivity (blocked st2).
  - by transitivity (mapped st2).
  - intros H. apply Hk', Hk, H.
Qed.

Lemma map_contains_keys name :
  map_contains (_config.map_users Configuration) name = Ok true →
  name ∈ map_keys Configuration.
Proof.
  unfold map_contains, map_keys.
  destruct (_config.map_users Configuration) as [d|]; [| discriminate].
  intros [= H%bool_decide_eq_true]. by apply elem_of_dom.
Qed.

Lemma map_contains_absent name :
  name ∉ map_keys Configuration →
  map_truthy (_config.map_users Configuration) = true →
  map_contains (_config.map_users Configuration) name = Ok false.
Proof.
  unfold map_keys, map_truthy, map_contains.
  destruct (_config.map_users Configuration) as [d|]; [| discriminate].
  intros Hk _. f_equal. apply bool_decide_eq_false.
  by rewrite <- elem_of_dom.
Qed.

Lemma business_external label body :
  external (by_name (business label body)).
Proof. by intros name args kwargs st. Qed.

(** A blocking check grows [blocked] by the name and nothing else. *)
Lemma grows_blocked_add name msg st :
  grows Configuration st (blocked_add name (info msg st)).
Proof.
  repeat split; simpl; [apply union_subseteq_r | done | done].
Qed.

(** A first remapping grows [mapped] by a key of the mapping. *)
Lemma grows_mapped_add name msg st :
  name ∈ map_keys Configuration →
  grows Configuration st (mapped_add name (info msg st)).
Proof.
  intros Hk. repeat split; simpl; [done | apply union_subseteq_r |].
  intros Hsub. apply union_least; [| done]. by apply singleton_subseteq_l.
Qed.

Lemma decorated_grows f :
  decorated Configuration f →
  ∀ name args kwargs st, grows Configuration st (f name args kwargs st).2.
Proof.
  induction 1 as [f Hf | list_type f Hf IH | f Hf IH | f Hf IH];
    intros name args kwargs st.
  - destruct (Hf name args kwargs st) as [Hb Hm].
    unfold grows. rewrite Hb, Hm. apply grows_refl.
  - unfold restrict.
    destruct (decide (name ∈ blocked st)); [apply grows_refl |].
    destruct (truthy _); [| apply IH].
    destruct (contains _ name) as [present | e]; [| apply grows_refl].
    destruct (xorb _ present); [apply grows_blocked_add | apply IH].
  - unfold manually_resolve.
    destruct (decide (name ∈ mapped st)).
    { destruct (map_getitem _ name); [apply IH | apply grows_refl]. }
    destruct (map_truthy _); [| apply IH].
    destruct (map_contains _ name) as [[] | e] eqn:Hin;
      [| apply IH | apply grows_refl].
    destruct (map_getitem _ name) as [mapped_name | e]; [| apply grows_refl].
    eapply grows_trans; [| apply IH].
    by apply grows_mapped_add, map_contains_keys.
  - unfold repositories.
    destruct (odict_getitem _ name); [apply IH | apply grows_refl].
Qed.

Lemma run_grows cs :
  Forall (λ c, decorated Configuration (target c)) cs →
  ∀ st, grows Configuration st (run cs st).
Proof.
  induction 1 as [| c cs Hc _ IH]; intros st; [apply grows_refl |].
  simpl. eapply grows_trans; [| apply IH].
  apply decorated_grows, Hc.
Qed.

Lemma restrict_blocked list_type func name args kwargs st :
  name ∈ blocked st →
  restrict Configuration list_type func name args kwargs st = (Ok VNone, st).
Proof. intros Hin. unfold restrict. by rewrite decide_True. Qed.

Lemma restrict_checked list_type func name args kwargs st :
  name ∉ blocked st →
  truthy (collection_of Configuration list_type) = true →
  restrict Configuration list_type func name args kwargs st =
    if xorb (bool_decide (list_type = "whitelist"))
            (bool_decide (name ∈ names_of (collection_of Configuration list_type)))
    then (Ok VNone, blocked_add name (info (block_message name list_type) st))
    else func name args kwargs st.
Proof.
  intros Hfresh Hcoll. unfold restrict.
  rewrite decide_False by done.
  by rewrite Hcoll, (contains_names_of _ _ Hcoll).
Qed.

Lemma restrict_unfiltered list_type func name args kwargs st :
  truthy (_config.whitelist Configuration) = false →
  truthy (_config.blacklist Configuration) = false →
  name ∉ blocked st →
  restrict Configuration list_type func name args kwargs st
  = func name args kwargs st.
Proof.
  intros Hw Hb Hfresh. unfold restrict, collection_of.
  rewrite decide_False by done.
  repeat case_decide; by rewrite ?Hw, ?Hb.
Qed.

Lemma manually_resolve_first func name args kwargs st mapped_name :
  name ∉ mapped st →
  map_getitem (_config.map_users Configuration) name = Ok mapped_name →
  manually_resolve Configuration func name args kwargs st
  = func mapped_name args kwargs
      (mapped_add name (info (resolve_message name mapped_name) st)).
Proof.
  intros Hfresh Hget. unfold manually_resolve.
  rewrite decide_False by done.
  destruct (map_getitem_present _ _ _ Hget) as [-> ->].
  by rewrite Hget.
Qed.

Lemma manually_resolve_again func name args kwargs st mapped_name :
  name ∈ mapped st →
  map_getitem (_config.map_users Configuration) name = Ok mapped_name →
  manually_resolve Configuration func name args kwargs st
  = func mapped_name args kwargs st.
Proof.
  intros Hin Hget. unfold manually_resolve.
  rewrite decide_True by done. by rewrite Hget.
Qed.

Lemma manually_resolve_unmapped func name args kwargs st :
  name ∉ mapped st →
  name ∉ map_keys Configuration →
  manually_resolve Configuration func name args kwargs st
  = func name args kwargs st.
Proof.
  intros Hfresh Hkey. unfold manually_resolve.
  rewrite decide_False by done.
  destruct (map_truthy _) eqn:Ht; [| done].
  by rewrite (map_contains_absent _ Hkey Ht).
Qed.

Lemma with_credentials_unbound service func args kwargs st :
  service ≠ "Jira" →
  with_credentials Configuration service func args kwargs st
  = (Raise (UnboundLocalError "usr"), st).
Proof.
  intros Hs. unfold with_credentials, credentials_of.
  by rewrite decide_False.
Qed.

(** With [use_jira] off the attribute [jira_user] was never assigned. *)
Lemma with_credentials_without_jira func args kwargs st :
  _config.jira_user Configuration = None →
  with_credentials Configuration "Jira" func args kwargs st
  = (Raise (AttributeError "jira_user"), st).
Proof.
  intros Hu. unfold with_credentials, credentials_of. simpl. by rewrite Hu.
Qed.

Lemma with_credentials_jira func args kwargs st usr pwd :
  _config.jira_user Configuration = Some usr →
  _config.jira_pass Configuration = Some pwd →
  with_credentials Configuration "Jira" func args kwargs st
  = func args (<["_pwd" := of_optional pwd]>
                 (<["_usr" := of_optional usr]> kwargs)) st.
Proof.
  intros Hu Hp. unfold with_credentials, credentials_of. simpl.
  by rewrite Hu, Hp.
Qed.

(** [with_token] has a branch for every service. *)
Lemma with_token_calls service func args kwargs st :
  with_token Configuration service func args kwargs st
  = func args (<["_token" := of_optional (token_of Configuration service)]> kwargs) st.
Proof. reflexivity. Qed.

End DecoratorFacts.

(** ** The access filter *)

(** C2: a check that finds [name] outside the whitelist, or inside the
    blacklist, puts it in [blocked]; no run of decorated functions takes a
    name out of [blocked]; and while [name] is in [blocked], a call with it
    to a function wrapped by [restrict], whatever the list type and the
    wrapped function, returns [None] and leaves the whole state as it was:
    no record is logged and the wrapped function is not called. *)
Theorem blocked_name_stays_blocked Configuration name st :
  (∀ list_type func args kwargs,
      name ∉ blocked st →
      truthy (collection_of Configuration list_type) = true →
      xorb (bool_decide (list_type = "whitelist"))
           (bool_decide (name ∈ names_of (collection_of Configuration list_type)))
        = true →
      name ∈ blocked (restrict Configuration list_type func name args kwargs st).2)
  ∧ (∀ cs, Forall (λ c, decorated Configuration (target c)) cs →
       blocked st ⊆ blocked (run cs st)
       ∧ (name ∈ blocked st →
          ∀ list_type func args kwargs,
            restrict Configuration list_type func name args kwargs (run cs st)
            = (Ok VNone, run cs st))).
Proof.
  split.
  - intros list_type func args kwargs Hfresh Hcoll Hxor.
    rewrite restrict_checked, Hxor by done. simpl.
    apply elem_of_union_l. by apply elem_of_singleton.
  - intros cs Hcs. destruct (run_grows Configuration cs Hcs st) as (Hb & _ & _).
    split; [done |]. intros Hin list_type func args kwargs.
    apply restrict_blocked. by apply Hb.
Qed.

Lemma blocked_name_stays_blocked_witness :
  let st1 :=
    (restrict example_settings "whitelist" lookup "bob" [] ∅ (initial [])).2 in
  let cs := [Call (restrict example_settings "blacklist" lookup) "eve" [] ∅] in
  "bob" ∈ blocked st1
  ∧ blocked st1 ⊆ blocked (run cs st1)
  ∧ restrict example_settings "none" lookup "bob" [VInt 7] ∅ (run cs st1)
    = (Ok VNone, run cs st1).
Proof.
  intros st1 cs.
  assert ("bob" ∈ blocked st1) as Hin.
  { apply (proj1 (blocked_name_stays_blocked example_settings "bob" (initial []))).
    - apply not_elem_of_empty.
    - vm_compute. reflexivity.
    - vm_compute. reflexivity. }
  assert (Forall (λ c, decorated example_settings (target c)) cs) as Hcs.
  { constructor; [| constructor].
    apply decorated_restrict, decorated_external, business_external. }
  destruct (proj2 (blocked_name_stays_blocked example_settings "bob" st1) cs Hcs)
    as [Hmono Hsticky].
  split; [exact Hin |]. split; [exact Hmono |]. apply Hsticky, Hin.
Defined.



(** C6: when the document gives neither list a truthy value (null or an
    empty list, which [x and {*x}] keeps as they are), every call with a name
    not in [blocked] through a function wrapped by [restrict], whatever the
    list type, is the call of the wrapped function with the same arguments in
    the same state: nothing is logged and nothing joins [blocked]. *)
Theorem falsy_lists_filter_nothing configs environ cfg logs wl bl :
  load (Parsed configs) environ = (Ok cfg, logs) →
  doc_whitelist configs = Some wl →
  doc_blacklist configs = Some bl →
  truthy_list wl = false →
  truthy_list bl = false →
  ∀ list_type func name args kwargs st,
    name ∉ blocked st →
    restrict cfg list_type func name args kwargs st = func name args kwargs st.
Proof.
  intros Hload Hwl Hbl Hw Hb list_type func name args kwargs st Hfresh.
  destruct (load_lists _ _ _ _ Hload) as (wl' & bl' & Hwl' & Hbl' & Hcw & Hcb).
  rewrite Hwl in Hwl'. rewrite Hbl in Hbl'.
  injection Hwl' as <-. injection Hbl' as <-.
  apply restrict_unfiltered; [| | done].
  - rewrite Hcw. by apply and_set_falsy.
  - rewrite Hcb. by apply and_set_falsy.
Qed.

Lemma falsy_lists_filter_nothing_witness :
  load (Parsed open_document) token_environ
  = (Ok open_settings,
     [(DEBUG, "Attempting to read configuration file conf/config.yaml")])
  ∧ restrict open_settings "whitelist" lookup "bob" [VInt 1] ∅ (initial [])
    = lookup "bob" [VInt 1] ∅ (initial [])
  ∧ restrict open_settings "blacklist" lookup "bob" [] ∅ (initial [])
    = lookup "bob" [] ∅ (initial []).
Proof.
  assert (load (Parsed open_document) token_environ
          = (Ok open_settings,
             [(DEBUG, "Attempting to read configuration file conf/config.yaml")]))
    as Hload by (vm_compute; reflexivity).
  split; [exact Hload |].
  split;
    apply (falsy_lists_filter_nothing open_document token_environ open_settings
             _ (Some []) None Hload eq_refl eq_refl eq_refl eq_refl);
    apply not_elem_of_empty.
Defined.

(** ** The identity resolver *)

(** C4: the first call with a name that is a key of the manual mapping logs
    one INFO record, puts the name in [mapped] and calls the wrapped function
    with the mapped name (and the name then stays in [mapped] through any run
    of decorated functions); a call with a name already in [mapped] calls the
    wrapped function with the value the mapping holds at that call, in the
    unchanged state, so without a record; a call with a name that is neither
    in [mapped] nor a key of the mapping calls the wrapped function with the
    name as it is. *)
Theorem manually_resolve_first_later_unmapped Configuration func name args kwargs st :
  (∀ mapped_name,
      name ∉ mapped st →
      map_getitem (_config.map_users Configuration) name = Ok mapped_name →
      manually_resolve Configuration func name args kwargs st
      = func mapped_name args kwargs
          {| blocked := blocked st;
             mapped := {[name]} ∪ mapped st;
             records := (records st ++ [(INFO, resolve_message name mapped_name)])%list;
             calls := calls st |}
      ∧ (decorated Configuration func →
         ∀ cs, Forall (λ c, decorated Configuration (target c)) cs →
           name ∈ mapped
             (run cs (manually_resolve Configuration func name args kwargs st).2)))
  ∧ (∀ current mapped_name,
       name ∈ mapped st →
       map_getitem (_config.map_users current) name = Ok mapped_name →
       manually_resolve current func name args kwargs st
       = func mapped_name args kwargs st)
  ∧ (name ∉ mapped st →
     name ∉ map_keys Configuration →
     manually_resolve Configuration func name args kwargs st
     = func name args kwargs st).
Proof.
  split; [| split].
  - intros mapped_name Hfresh Hget.
    pose proof (manually_resolve_first Configuration func name args kwargs st
                  mapped_name Hfresh Hget) as Heq.
    split; [exact Heq |].
    intros Hfunc cs Hcs. rewrite Heq.
    set (st1 := mapped_add name (info (resolve_message name mapped_name) st)).
    destruct (run_grows Configuration cs Hcs (func mapped_name args kwargs st1).2)
      as (_ & Hrun & _).
    destruct (decorated_grows Configuration func Hfunc mapped_name args kwargs st1)
      as (_ & Hcall & _).
    apply Hrun, Hcall. simpl.
    apply elem_of_union_l. by apply elem_of_singleton.
  - intros current mapped_name. apply manually_resolve_again.
  - apply manually_resolve_unmapped.
Qed.

Lemma manually_resolve_first_later_unmapped_witness :
  let st1 := (manually_resolve example_settings lookup "jdoe" [] ∅ (initial [])).2 in
  manually_resolve example_settings lookup "jdoe" [] ∅ (initial [])
  = lookup "john.doe" [] ∅
      {| blocked := ∅;
         mapped := {[ "jdoe" ]} ∪ ∅;
         records :=
           [(INFO, "jdoe in manual mapping configuration, doing lookup on john.doe")];
         calls := [] |}
  ∧ "jdoe" ∈ mapped st1
  ∧ manually_resolve example_settings lookup "jdoe" [] ∅ st1
    = lookup "john.doe" [] ∅ st1
  ∧ manually_resolve example_settings lookup "asmith" [] ∅ st1
    = lookup "asmith" [] ∅ st1.
Proof.
  intros st1.
  assert (map_getitem (_config.map_users example_settings) "jdoe" = Ok "john.doe")
    as Hget by (vm_compute; reflexivity).
  destruct (proj1 (manually_resolve_first_later_unmapped
                     example_settings lookup "jdoe" [] ∅ (initial []))
              "john.doe" (not_elem_of_empty "jdoe") Hget) as [Hfirst Hstays].
  assert ("jdoe" ∈ mapped st1) as Hin.
  { apply (Hstays (decorated_external _ _ (business_external _ _)) []).
    constructor. }
  split; [exact Hfirst |]. split; [exact Hin |]. split.
  - apply (proj1 (proj2 (manually_resolve_first_later_unmapped
                           example_settings lookup "jdoe" [] ∅ st1))
             example_settings "john.doe" Hin Hget).
  - apply (proj2 (proj2 (manually_resolve_first_later_unmapped
                           example_settings lookup "asmith" [] ∅ st1))).
    + apply (bool_decide_unpack _). vm_compute. exact I.
    + apply (bool_decide_unpack _). vm_compute. exact I.
Defined.

(** C10: from a state whose [mapped] lies within the keys of the manual
    mapping (such as the state right after import), every run of decorated
    functions ends in such a state; there, for a name in [mapped], the lookup
    [map_users[name]] of the sticky path succeeds and the call is that of the
    wrapped function with the value it gives. *)
Theorem mapped_within_map_keys Configuration cs st0 :
  mapped st0 ⊆ map_keys Configuration →
  Forall (λ c, decorated Configuration (target c)) cs →
  let st := run cs st0 in
  mapped st ⊆ map_keys Configuration
  ∧ ∀ name, name ∈ mapped st →
      ∃ mapped_name,
        map_getitem (_config.map_users Configuration) name = Ok mapped_name
        ∧ ∀ func args kwargs,
            manually_resolve Configuration func name args kwargs st
            = func mapped_name args kwargs st.
Proof.
  intros Hinit Hcs st.
  destruct (run_grows Configuration cs Hcs st0) as (_ & _ & Hkeys).
  specialize (Hkeys Hinit). fold st in Hkeys. split; [exact Hkeys |].
  intros name Hin. pose proof (Hkeys name Hin) as Hk.
  unfold map_keys in Hk.
  destruct (_config.map_users Configuration) as [d|] eqn:Hd;
    [| by apply not_elem_of_empty in Hk].
  apply elem_of_dom in Hk as [mapped_name Hm].
  assert (map_getitem (_config.map_users Configuration) name = Ok mapped_name)
    as Hget by (rewrite Hd; simpl; by rewrite Hm).
  exists mapped_name. rewrite <- Hd. split; [exact Hget |].
  intros func args kwargs. by apply manually_resolve_again.
Qed.

Lemma mapped_within_map_keys_witness :
  let cs := [Call (manually_resolve example_settings lookup) "jdoe" [] ∅;
             Call (restrict example_settings "blacklist"
                     (manually_resolve example_settings lookup)) "asmith" [] ∅] in
  let st := run cs (initial []) in
  mapped st ⊆ map_keys example_settings
  ∧ manually_resolve example_settings lookup "jdoe" [VInt 2] ∅ st
    = lookup "john.doe" [VInt 2] ∅ st.
Proof.
  intros cs st.
  assert (Forall (λ c, decorated example_settings (target c)) cs) as Hcs.
  { constructor; [| constructor; [| constructor]].
    - apply decorated_manually_resolve, decorated_external, business_external.
    - apply decorated_restrict, decorated_manually_resolve,
        decorated_external, business_external. }
  destruct (mapped_within_map_keys example_settings cs (initial [])
              (empty_subseteq _) Hcs) as [Hsub Hsticky].
  split; [exact Hsub |].
  assert ("jdoe" ∈ mapped st) as Hin.
  { apply (bool_decide_unpack _). vm_compute. exact I. }
  destruct (Hsticky "jdoe" Hin) as (mapped_name & Hget & Hcall).
  vm_compute in Hget. injection Hget as <-.
  apply Hcall.
Defined.

(** ** Credential injection *)

(** C5, at the input where the code departs from it: under
    [with_credentials] with a service other than 'Jira' the locals [usr] and
    [pwd] are never assigned, the wrapper raises [UnboundLocalError] at
    [new_kwargs['_usr'] = usr], and the wrapped function is not called. *)
Theorem with_credentials_other_service_raises Configuration func args kwargs st :
  with_credentials Configuration "Github" func args kwargs st
  = (Raise (UnboundLocalError "usr"), st).
Proof. by apply with_credentials_unbound. Qed.

(** C7: the wrapper produced by [with_token] calls the wrapped function with
    the positional arguments it got, in the state it got, and with [_token]
    set to the configured Github token when the service is 'Github' and to
    the configured Slack token for every other service: the string itself
    when the token is set, [None] when it is not.  Two calls in a row reach
    the wrapped function with that same token and leave [blocked], [mapped]
    and the log as they were. *)
Theorem with_token_injects_configured_token Configuration service func args kwargs st :
  let token :=
    match (if decide (service = "Github")
           then _config.github_token Configuration
           else _config.slack_token Configuration) with
    | Some configured => VStr configured
    | None => VNone
    end in
  with_token Configuration service func args kwargs st
  = func args (<["_token" := token]> kwargs) st
  ∧ ∀ label body args' kwargs',
      let wrapped := with_token Configuration service (business label body) in
      let st1 := (wrapped args kwargs st).2 in
      let st2 := (wrapped args' kwargs' st1).2 in
      calls st2
      = (calls st ++ [Invocation label args (<["_token" := token]> kwargs);
                      Invocation label args' (<["_token" := token]> kwargs')])%list
      ∧ blocked st2 = blocked st
      ∧ mapped st2 = mapped st
      ∧ records st2 = records st.
Proof.
  intros token.
  assert (of_optional (token_of Configuration service) = token) as Htoken.
  { unfold token, token_of.
    by destruct (decide (service = "Github")),
                (_config.github_token Configuration),
                (_config.slack_token Configuration). }
  split; [by rewrite with_token_calls, Htoken |].
  intros label body args' kwargs'. rewrite <- Htoken. simpl.
  by rewrite <- app_assoc.
Qed.

Lemma with_token_injects_configured_token_witness :
  let wrapped service := with_token example_settings service notify in
  wrapped "Github" [VInt 1] ∅ (initial [])
  = notify [VInt 1] (<["_token" := VStr "gh-token"]> ∅) (initial [])
  ∧ wrapped "Slack" [VInt 1] ∅ (initial [])
    = notify [VInt 1] (<["_token" := VStr "slack-token"]> ∅) (initial [])
  ∧ calls (wrapped "Github" [VInt 2] ∅
             (wrapped "Github" [VInt 1] ∅ (initial [])).2).2
    = [Invocation "notify" [VInt 1] (<["_token" := VStr "gh-token"]> ∅);
       Invocation "notify" [VInt 2] (<["_token" := VStr "gh-token"]> ∅)]
  ∧ with_token open_settings "Github" notify [] {[ "_token" := VStr "forged" ]}
      (initial [])
    = notify [] (<["_token" := VStr "gh-token"]> {[ "_token" := VStr "forged" ]})
        (initial []).
Proof.
  intros wrapped.
  destruct (with_token_injects_configured_token example_settings "Github"
              notify [VInt 1] ∅ (initial [])) as [Hgithub Htwice].
  destruct (Htwice "notify" (fun args _ => Ok (VList args)) [VInt 2] ∅)
    as (Hcalls & _).
  split; [exact Hgithub |].
  split; [exact (proj1 (with_token_injects_configured_token example_settings
                          "Slack" notify [VInt 1] ∅ (initial []))) |].
  split; [exact Hcalls |].
  exact (proj1 (with_token_injects_configured_token open_settings "Github"
                  notify [] {[ "_token" := VStr "forged" ]} (initial []))).
Defined.

(** ** Repositories of one organization *)

(** C9: for an organization that is a key of the configured repositories the
    wrapped function is called with the organization, the other arguments
    and [_repositories] set to the list configured for it; for any other
    organization the wrapper raises [KeyError] itself, in the unchanged state
    and whatever the wrapped function is. *)
Theorem repositories_injects_or_raises Configuration func organization args kwargs st :
  (organization ∈ odict_keys (_config.repositories Configuration) →
   ∃ repos,
     odict_get (_config.repositories Configuration) organization = Some repos
     ∧ repositories Configuration func organization args kwargs st
       = func organization args
           (<["_repositories" := VList (VStr <$> repos)]> kwargs) st)
  ∧ (organization ∉ odict_keys (_config.repositories Configuration) →
     repositories Configuration func organization args kwargs st
     = (Raise (KeyError organization), st)).
Proof.
  unfold repositories, odict_getitem. split; intros Hk.
  - apply odict_get_is_Some in Hk as [repos Hr]. exists repos. by rewrite Hr.
  - destruct (odict_get _ organization) as [repos|] eqn:Hr; [| done].
    exfalso. apply Hk, odict_get_is_Some. eauto.
Qed.

Lemma repositories_injects_or_raises_witness :
  repositories example_settings lookup "octo" [VInt 3] ∅ (initial [])
  = lookup "octo" [VInt 3]
      (<["_repositories" := VList [VStr "nag"; VStr "cat"]]> ∅) (initial [])
  ∧ repositories example_settings lookup "nobody" [VInt 3] ∅ (initial [])
    = (Raise (KeyError "nobody"), initial []).
Proof.
  split.
  - destruct (proj1 (repositories_injects_or_raises
                       example_settings lookup "octo" [VInt 3] ∅ (initial [])))
      as (repos & Hget & Hcall).
    + apply list_elem_of_here.
    + vm_compute in Hget. injection Hget as <-. exact Hcall.
  - apply (proj2 (repositories_injects_or_raises
                    example_settings lookup "nobody" [VInt 3] ∅ (initial []))).
    apply (bool_decide_unpack _). vm_compute. exact I.
Defined.

(** ** The repository generator *)

Lemma looked_up_ext d d' owners :
  (∀ owner, owner ∈ owners → odict_get d owner = odict_get d' owner) →
  looked_up d owners = looked_up d' owners.
Proof.
  induction owners as [| o owners IH]; intros Hext; [done |].
  simpl. rewrite (Hext o) by apply list_elem_of_here.
  f_equal. apply IH. intros owner Hin. apply Hext. by apply list_elem_of_further.
Qed.

(** Looking every key up gives the entries back, as long as no key occurs
    twice, which is what a [dict] guarantees. *)
Lemma looked_up_keys d :
  NoDup (odict_keys d) → looked_up d (odict_keys d) = pairs d.
Proof.
  unfold odict_keys, pairs. induction d as [| [k rs] d IH]; [done |].
  rewrite fmap_cons, NoDup_cons. simpl. intros [Hk Hd].
  destruct (decide (k = k)); [| done]. f_equal.
  rewrite <- IH by done. apply looked_up_ext.
  intros owner Hin. simpl. destruct (decide (owner = k)) as [-> |]; done.
Qed.

Lemma resume_loop_ready repositories owners :
  Forall (λ owner, is_Some (odict_get repositories owner)) owners →
  (looked_up repositories owners = []
   ∧ resume_loop repositories owners = (Raise StopIteration, Finished))
  ∨ ∃ p owners' owner rest,
      resume_loop repositories owners
      = (Ok p, Suspended repositories owners' owner rest)
      ∧ Forall (λ owner, is_Some (odict_get repositories owner)) owners'
      ∧ looked_up repositories owners
        = (p :: (pair owner <$> rest) ++ looked_up repositories owners')%list.
Proof.
  induction 1 as [| owner owners [rs Hrs] Hall IH]; [by left |].
  simpl. unfold odict_getitem. rewrite Hrs.
  destruct rs as [| repository rest]; [exact IH |].
  right. by exists (owner, repository), owners, owner, rest.
Qed.

Section GeneratorFacts.

Variable Configuration : _config.t.

Lemma resume_ready fr :
  ready fr →
  (remaining Configuration fr = []
   ∧ resume Configuration fr = (Raise StopIteration, Finished))
  ∨ ∃ p fr', resume Configuration fr = (Ok p, fr')
             ∧ ready fr'
             ∧ remaining Configuration fr = p :: remaining Configuration fr'.
Proof.
  intros Hready.
  assert (∀ repositories owners,
    Forall (λ owner, is_Some (odict_get repositories owner)) owners →
    (looked_up repositories owners = []
     ∧ resume_loop repositories owners = (Raise StopIteration, Finished))
    ∨ ∃ p fr', resume_loop repositories owners = (Ok p, fr') ∧ ready fr'
               ∧ looked_up repositories owners
                 = p :: remaining Configuration fr') as Hloop.
  { intros repositories owners Hall.
    destruct (resume_loop_ready repositories owners Hall)
      as [? | (p & os & o & rest & Hr & Hfr & Heq)]; [by left |].
    right. by exists p, (Suspended repositories os o rest). }
  destruct fr as [repos | repositories owners owner [| repository rest] |]; simpl.
  - apply Hloop. apply Forall_forall. intros owner Hin.
    by apply odict_get_is_Some.
  - apply Hloop, Hready.
  - right. by exists (owner, repository), (Suspended repositories owners owner rest).
  - by left.
Qed.

Lemma next_ready g heap fr :
  heap !! g = Some fr → ready fr →
  (remaining Configuration fr = []
   ∧ next Configuration g heap
     = Some (Raise StopIteration, <[g := Finished]> heap))
  ∨ ∃ p fr', next Configuration g heap = Some (Ok p, <[g := fr']> heap)
             ∧ ready fr'
             ∧ remaining Configuration fr = p :: remaining Configuration fr'.
Proof.
  intros Hg Hready. unfold next. rewrite Hg.
  destruct (resume_ready fr Hready) as [[Hrem ->] | (p & fr' & -> & Hfr & Hrem)].
  - by left.
  - right. by exists p, fr'.
Qed.

(** Enough fuel reaches [StopIteration]: the generator is finite. *)
Lemma collect_all fuel : ∀ g heap fr,
  heap !! g = Some fr → ready fr →
  length (remaining Configuration fr) < fuel →
  collect Configuration fuel g heap
  = Some (Ok (remaining Configuration fr), <[g := Finished]> heap).
Proof.
  induction fuel as [| fuel IH]; intros g heap fr Hg Hready Hlen; [lia |].
  simpl.
  destruct (next_ready g heap fr Hg Hready)
    as [[Hrem ->] | (p & fr' & -> & Hfr & Hrem)].
  - by rewrite Hrem.
  - rewrite Hrem in Hlen |- *. simpl in Hlen.
    rewrite (IH g (<[g := fr']> heap) fr').
    + by rewrite list_insert_insert_eq.
    + apply list_lookup_insert_eq. by eapply lookup_lt_Some.
    + done.
    + lia.
Qed.

(** Taking items from [g] writes the heap at [g] only. *)
Lemma islice_some n : ∀ g heap fr,
  heap !! g = Some fr → ready fr →
  ∃ fr', islice Configuration n g heap
         = (take n (remaining Configuration fr), <[g := fr']> heap)
         ∧ ready fr'
         ∧ remaining Configuration fr' = drop n (remaining Configuration fr).
Proof.
  induction n as [| n IH]; intros g heap fr Hg Hready.
  - exists fr. simpl. rewrite list_insert_id by done. by rewrite drop_0.
  - simpl.
    destruct (next_ready g heap fr Hg Hready)
      as [[Hrem ->] | (p & fr' & -> & Hfr & Hrem)].
    + exists Finished. by rewrite Hrem.
    + destruct (IH g (<[g := fr']> heap) fr') as (fr'' & -> & Hfr'' & Hrem'').
      * apply list_lookup_insert_eq. by eapply lookup_lt_Some.
      * done.
      * exists fr''. rewrite Hrem. simpl.
        by rewrite list_insert_insert_eq.
Qed.

End GeneratorFacts.

(** C8: over a mapping with no owner listed twice (the given one, or the
    configured repositories when none is given), two generators made one
    after the other each yield, within any fuel above the number of pairs,
    exactly the pairs of the mapping, owner by owner and repository by
    repository, and then stop; and after any number of items taken from the
    first, the second is where it was and still yields them all. *)
Theorem repository_generator_restartable Configuration repos heap :
  let repositories := default (_config.repositories Configuration) repos in
  NoDup (odict_keys repositories) →
  let '(g1, heap1) := repository_generator repos heap in
  let '(g2, heap2) := repository_generator repos heap1 in
  ∀ fuel, length (pairs repositories) < fuel →
    collect Configuration fuel g1 heap2
    = Some (Ok (pairs repositories), <[g1 := Finished]> heap2)
    ∧ collect Configuration fuel g2 heap2
      = Some (Ok (pairs repositories), <[g2 := Finished]> heap2)
    ∧ ∀ n, let '(items, heap3) := islice Configuration n g1 heap2 in
           items = take n (pairs repositories)
           ∧ heap3 !! g2 = heap2 !! g2
           ∧ collect Configuration fuel g2 heap3
             = Some (Ok (pairs repositories), <[g2 := Finished]> heap3).
Proof.
  intros repositories Hdict. simpl. intros fuel Hfuel.
  set (heap2 := ((heap ++ [Created repos]) ++ [Created repos])%list).
  set (g1 := length heap). set (g2 := length (heap ++ [Created repos])%list).
  assert (heap2 !! g1 = Some (Created repos)) as H1.
  { unfold heap2, g1. rewrite <- app_assoc. by apply list_lookup_middle. }
  assert (heap2 !! g2 = Some (Created repos)) as H2.
  { unfold heap2, g2. by apply list_lookup_middle. }
  assert (g1 ≠ g2) as Hne.
  { unfold g1, g2. rewrite length_app. simpl. lia. }
  assert (remaining Configuration (Created repos) = pairs repositories) as Hrem.
  { simpl. by apply looked_up_keys. }
  split; [| split].
  - rewrite <- Hrem. apply collect_all; [done | done |]. by rewrite Hrem.
  - rewrite <- Hrem. apply collect_all; [done | done |]. by rewrite Hrem.
  - intros n.
    destruct (islice_some Configuration n g1 heap2 (Created repos) H1 I)
      as (fr' & -> & _ & _).
    rewrite Hrem. split; [done |].
    assert (<[g1 := fr']> heap2 !! g2 = heap2 !! g2) as Hkeep
      by by apply list_lookup_insert_ne.
    split; [done |].
    rewrite <- Hrem. apply collect_all; [by rewrite Hkeep | done |].
    by rewrite Hrem.
Qed.

Lemma repository_generator_restartable_witness :
  let repos := Some example_repositories in
  let all := [("octo", "nag"); ("octo", "cat"); ("solo", "tool")] in
  NoDup (odict_keys example_repositories)
  ∧ collect example_settings 4 0 [Created repos; Created repos]
    = Some (Ok all, [Finished; Created repos])
  ∧ collect example_settings 4 1 [Created repos; Created repos]
    = Some (Ok all, [Created repos; Finished])
  ∧ (islice example_settings 2 0 [Created repos; Created repos]).1
    = [("octo", "nag"); ("octo", "cat")]
  ∧ collect example_settings 4 1
      (islice example_settings 2 0 [Created repos; Created repos]).2
    = Some (Ok all,
            <[1 := Finished]>
              (islice example_settings 2 0 [Created repos; Created repos]).2).
Proof.
  intros repos all.
  assert (NoDup (odict_keys example_repositories)) as Hdict.
  { apply (bool_decide_unpack _). vm_compute. exact I. }
  split; [exact Hdict |].
  destruct (repository_generator_restartable example_settings repos [] Hdict 4)
    as (Hfirst & Hsecond & Hboth).
  { vm_compute. lia. }
  split; [exact Hfirst |]. split; [exact Hsecond |].
  specialize (Hboth 2).
  destruct (islice example_settings 2 (length [])
              (([] ++ [Created repos]) ++ [Created repos])%list)
    as [items heap3] eqn:Hslice.
  change (islice example_settings 2 0 [Created repos; Created repos])
    with (islice example_settings 2 (length (@nil frame))
            (([] ++ [Created repos]) ++ [Created repos])%list).
  rewrite Hslice. simpl.
  destruct Hboth as (Hitems & _ & Hrest).
  split; [exact Hitems | exact Hrest].
Defined.

(** ** The scenarios of the specification, run *)

Example whitelist_scenario :
  let st1 := (restrict example_settings "whitelist" lookup "alice" [] ∅ (initial [])).2 in
  let st2 := (restrict example_settings "whitelist" lookup "bob" [] ∅ st1).2 in
  let st3 := (restrict example_settings "whitelist" lookup "bob" [] ∅ st2).2 in
  calls st3 = [Invocation "lookup" [VStr "alice"] ∅]
  ∧ records st3 = [(INFO, "User bob not in whitelist, blocking lookup")]
  ∧ st3 = st2.
Proof. vm_compute. repeat split. Qed.

Example blacklist_scenario :
  let st1 := (restrict example_settings "blacklist" lookup "eve" [] ∅ (initial [])).2 in
  let st2 := (restrict example_settings "blacklist" lookup "frank" [] ∅ st1).2 in
  calls st2 = [Invocation "lookup" [VStr "frank"] ∅]
  ∧ records st2 = [(INFO, "User eve  in blacklist, blocking lookup")].
Proof. vm_compute. repeat split. Qed.

Example remap_scenario :
  let st1 := (manually_resolve example_settings lookup "jdoe" [] ∅ (initial [])).2 in
  let st2 := (manually_resolve example_settings lookup "jdoe" [] ∅ st1).2 in
  let st3 := (manually_resolve example_settings lookup "asmith" [] ∅ st2).2 in
  calls st3 = [Invocation "lookup" [VStr "john.doe"] ∅;
               Invocation "lookup" [VStr "john.doe"] ∅;
               Invocation "lookup" [VStr "asmith"] ∅]
  ∧ records st3
    = [(INFO, "jdoe in manual mapping configuration, doing lookup on john.doe")].
Proof. vm_compute. repeat split. Qed.

Example credentials_scenario :
  (with_credentials example_settings "Jira" (business "jira" (fun _ _ => Ok VNone))
     [] ∅ (initial [])).1 = Ok VNone
  ∧ (with_credentials open_settings "Jira" (business "jira" (fun _ _ => Ok VNone))
       [] ∅ (initial [])).1 = Raise (AttributeError "jira_user")
  ∧ (with_credentials example_settings "Slack" (business "jira" (fun _ _ => Ok VNone))
       [] ∅ (initial [])).1 = Raise (UnboundLocalError "usr").
Proof. vm_compute. repeat split. Qed.

(** * Further facts *)

(** ** Loading, key by key *)

(** Every field of loaded settings, traced to where it came from. *)
Lemma load_values f environ cfg logs :
  load f environ = (Ok cfg, logs) →
  ∃ configs wl bl,
    f = Parsed configs
    ∧ _config.github_token cfg = getenv environ "GITHUB_API_TOKEN"
    ∧ _config.slack_token cfg = getenv environ "SLACK_API_TOKEN"
    ∧ is_Some (_config.github_token cfg)
    ∧ is_Some (_config.slack_token cfg)
    ∧ _config.debug_uid cfg = getenv environ "DEBUG_UID"
    ∧ doc_use_jira configs = Some (_config.use_jira cfg)
    ∧ doc_manually_resolve_users configs = Some (_config.map_users cfg)
    ∧ doc_repositories configs = Some (_config.repositories cfg)
    ∧ doc_whitelist configs = Some wl ∧ _config.whitelist cfg = and_set wl
    ∧ doc_blacklist configs = Some bl ∧ _config.blacklist cfg = and_set bl
    ∧ doc_ignore_no_assigned configs = Some (_config.ignore_assigned cfg)
    ∧ doc_ignore_no_requested configs = Some (_config.ignore_requested cfg)
    ∧ doc_send_greeting configs = Some (_config.send_greeting cfg)
    ∧ doc_default_email_domain configs = Some (_config.default_email_domain cfg)
    ∧ existsb is_critical logs = false.
Proof.
  destruct f as [| e | configs | parsed];
    [discriminate | discriminate | | discriminate].
  run_load. destruct configs as [uj mu rp wl bl ia ir sg ded]; simpl.
  destruct uj as [[]|]; simpl;
    destruct (getenv environ "SLACK_API_TOKEN") eqn:Hs,
             (getenv environ "GITHUB_API_TOKEN") eqn:Hg; simpl;
    load_cases; try discriminate;
    intros [= <- <-]; simpl; rewrite ?Hs, ?Hg;
    eexists _, _, _; repeat split; eauto.
Qed.


(** Settings that were loaded hold the values of the environment and of the
    document as they were given: the two tokens (both set), the manual
    mapping, the repositories, the flags, the debug user and the email
    domain; the two lists went through [x and {*x}]; and nothing above DEBUG
    was logged. *)
Theorem load_keeps_values f environ cfg logs :
  load f environ = (Ok cfg, logs) →
  ∃ configs wl bl,
    f = Parsed configs
    ∧ _config.github_token cfg = getenv environ "GITHUB_API_TOKEN"
    ∧ _config.slack_token cfg = getenv environ "SLACK_API_TOKEN"
    ∧ is_Some (_config.github_token cfg)
    ∧ is_Some (_config.slack_token cfg)
    ∧ _config.debug_uid cfg = getenv environ "DEBUG_UID"
    ∧ doc_use_jira configs = Some (_config.use_jira cfg)
    ∧ doc_manually_resolve_users configs = Some (_config.map_users cfg)
    ∧ doc_repositories configs = Some (_config.repositories cfg)
    ∧ doc_whitelist configs = Some wl ∧ _config.whitelist cfg = and_set wl
    ∧ doc_blacklist configs = Some bl ∧ _config.blacklist cfg = and_set bl
    ∧ doc_ignore_no_assigned configs = Some (_config.ignore_assigned cfg)
    ∧ doc_ignore_no_requested configs = Some (_config.ignore_requested cfg)
    ∧ doc_send_greeting configs = Some (_config.send_greeting cfg)
    ∧ doc_default_email_domain configs = Some (_config.default_email_domain cfg)
    ∧ existsb is_critical logs = false.
Proof. apply load_values. Qed.

Lemma load_keeps_values_witness :
  load (Parsed jira_document) full_environ
  = (Ok full_settings,
     [(DEBUG, "Attempting to read configuration file conf/config.yaml");
      (DEBUG, "Using JIRA credentials")])
  ∧ _config.github_token full_settings = getenv full_environ "GITHUB_API_TOKEN"
  ∧ _config.debug_uid full_settings = getenv full_environ "DEBUG_UID"
  ∧ doc_repositories jira_document = Some (_config.repositories full_settings).
Proof.
  assert (load (Parsed jira_document) full_environ
          = (Ok full_settings,
             [(DEBUG, "Attempting to read configuration file conf/config.yaml");
              (DEBUG, "Using JIRA credentials")])) as Hload
    by (vm_compute; reflexivity).
  split; [exact Hload |].
  destruct (load_keeps_values _ _ _ _ Hload)
    as (configs & wl & bl & Hf & Hgh & _ & _ & _ & Huid & _ & _ & Hrp & _).
  injection Hf as <-.
  split; [exact Hgh |]. split; [exact Huid | exact Hrp].
Defined.

(** A file that parses into a mapping lacking a key makes [__init__] raise
    [KeyError] for the first key the mapping lacks in reading order,
    provided the token check does not exit first: both tokens are set, or
    the missing key is [use_jira], which is read before the check.  A file
    that parses into something that is not a mapping ([None] for an empty
    file, a list, a scalar) makes [configs['use_jira']] raise [TypeError],
    whatever the tokens.  On both paths nothing above DEBUG is logged. *)
Theorem load_raises_first_missing_key environ :
  (∀ configs key,
     first_missing configs = Some key →
     has_tokens environ = true ∨ doc_use_jira configs = None →
     (load (Parsed configs) environ).1 = Raise (KeyError key)
     ∧ existsb is_critical (load (Parsed configs) environ).2 = false)
  ∧ (∀ parsed,
       ∃ what,
         load (NotMapping parsed) environ
         = (Raise (TypeError what),
            [(DEBUG, "Attempting to read configuration file conf/config.yaml")])).
Proof.
  split; [| intros parsed; eexists; apply load_not_mapping].
  intros configs key.
  unfold has_tokens, first_missing. rewrite !bool_decide_is_Some.
  run_load. destruct configs as [uj mu rp wl bl ia ir sg ded]; simpl.
  destruct uj as [[]|]; simpl;
    destruct (getenv environ "SLACK_API_TOKEN"),
             (getenv environ "GITHUB_API_TOKEN"); simpl;
    load_cases;
    intros Hkey [Htok | Huj]; try discriminate;
    injection Hkey as <-; split; reflexivity.
Qed.

Lemma load_raises_first_missing_key_witness :
  first_missing partial_document = Some "repositories"
  ∧ (load (Parsed partial_document) token_environ).1
    = Raise (KeyError "repositories")
  ∧ existsb is_critical (load (Parsed partial_document) token_environ).2 = false
  ∧ (load (Parsed empty_document) ∅).1 = Raise (KeyError "use_jira")
  ∧ ∃ what, load (NotMapping VNone) token_environ
            = (Raise (TypeError what),
               [(DEBUG, "Attempting to read configuration file conf/config.yaml")]).
Proof.
  split; [reflexivity |].
  destruct (proj1 (load_raises_first_missing_key token_environ)
              partial_document "repositories" eq_refl) as [Hkey Hlog].
  { left. vm_compute. reflexivity. }
  split; [exact Hkey |]. split; [exact Hlog |].
  split.
  - apply (proj1 (load_raises_first_missing_key ∅) empty_document "use_jira" eq_refl).
    by right.
  - apply (proj2 (load_raises_first_missing_key token_environ) VNone).
Defined.

(** Loading ends in [sys.exit(1)] exactly when it has logged a critical
    record: the parse failure and the token check are the two places that
    do both; a missing file and a missing key raise without either. *)
Theorem load_exits_iff_critical f environ :
  (load f environ).1 = Raise (SystemExit 1)
  ↔ existsb is_critical (load f environ).2 = true.
Proof.
  destruct f as [| e | configs | parsed];
    [split; discriminate | split; reflexivity | | split; discriminate].
  run_load. destruct configs as [uj mu rp wl bl ia ir sg ded]; simpl.
  destruct uj as [[]|]; simpl;
    destruct (getenv environ "SLACK_API_TOKEN"),
             (getenv environ "GITHUB_API_TOKEN"); simpl;
    load_cases; split; first [reflexivity | discriminate].
Qed.

(** ** Loaded settings at work *)

Lemma list_to_set_cons_nonempty (n : string) ns :
  list_to_set (n :: ns) ≠@{gset string} ∅.
Proof.
  intros H. assert (n ∈@{gset string} ∅) as Hin; [| by apply not_elem_of_empty in Hin].
  rewrite <- H. apply elem_of_list_to_set, list_elem_of_here.
Qed.

Lemma and_set_cons_truthy n ns name :
  truthy (and_set (Some (n :: ns))) = true
  ∧ bool_decide (name ∈ names_of (and_set (Some (n :: ns))))
    = bool_decide (name ∈ n :: ns).
Proof.
  split.
  - cbn [and_set truthy]. apply negb_true_iff, bool_decide_eq_false.
    apply list_to_set_cons_nonempty.
  - cbn [and_set names_of]. apply bool_decide_ext, elem_of_list_to_set.
Qed.

(** With a non-empty whitelist in the document, a call through
    [restrict('whitelist')] with a name not in [blocked] reaches the wrapped
    function exactly when the name is in the configured list; any other name
    is blocked. *)
Theorem loaded_whitelist_admits_listed configs environ cfg logs n ns :
  load (Parsed configs) environ = (Ok cfg, logs) →
  doc_whitelist configs = Some (Some (n :: ns)) →
  ∀ func name args kwargs st,
    name ∉ blocked st →
    restrict cfg "whitelist" func name args kwargs st
    = if bool_decide (name ∈ n :: ns)
      then func name args kwargs st
      else (Ok VNone, blocked_add name (info (block_message name "whitelist") st)).
Proof.
  intros Hload Hwl func name args kwargs st Hfresh.
  destruct (load_lists _ _ _ _ Hload) as (wl & bl & Hwl' & _ & Hcw & _).
  rewrite Hwl in Hwl'. injection Hwl' as <-.
  assert (collection_of cfg "whitelist" = and_set (Some (n :: ns))) as Hc
    by (unfold collection_of; by rewrite Hcw).
  destruct (and_set_cons_truthy n ns name) as [Ht Hin].
  rewrite restrict_checked by (by rewrite ?Hc).
  rewrite Hc, Hin. by destruct (bool_decide (name ∈ n :: ns)).
Qed.

Lemma loaded_whitelist_admits_listed_witness :
  restrict example_settings "whitelist" lookup "alice" [] ∅ (initial [])
  = lookup "alice" [] ∅ (initial [])
  ∧ restrict example_settings "whitelist" lookup "bob" [] ∅ (initial [])
    = (Ok VNone,
       blocked_add "bob" (info (block_message "bob" "whitelist") (initial []))).
Proof.
  split.
  - etransitivity.
    + apply (loaded_whitelist_admits_listed jira_document token_environ
               example_settings _ "alice" [] load_example eq_refl).
      apply not_elem_of_empty.
    + reflexivity.
  - etransitivity.
    + apply (loaded_whitelist_admits_listed jira_document token_environ
               example_settings _ "alice" [] load_example eq_refl).
      apply not_elem_of_empty.
    + reflexivity.
Defined.

(** With a non-empty blacklist in the document, a call through
    [restrict('blacklist')] with a name not in [blocked] is blocked exactly
    when the name is in the configured list; any other name reaches the
    wrapped function. *)
Theorem loaded_blacklist_blocks_listed configs environ cfg logs n ns :
  load (Parsed configs) environ = (Ok cfg, logs) →
  doc_blacklist configs = Some (Some (n :: ns)) →
  ∀ func name args kwargs st,
    name ∉ blocked st →
    restrict cfg "blacklist" func name args kwargs st
    = if bool_decide (name ∈ n :: ns)
      then (Ok VNone, blocked_add name (info (block_message name "blacklist") st))
      else func name args kwargs st.
Proof.
  intros Hload Hbl func name args kwargs st Hfresh.
  destruct (load_lists _ _ _ _ Hload) as (wl & bl & _ & Hbl' & _ & Hcb).
  rewrite Hbl in Hbl'. injection Hbl' as <-.
  assert (collection_of cfg "blacklist" = and_set (Some (n :: ns))) as Hc
    by (unfold collection_of; by rewrite Hcb).
  destruct (and_set_cons_truthy n ns name) as [Ht Hin].
  rewrite restrict_checked by (by rewrite ?Hc).
  by rewrite Hc, Hin.
Qed.

Lemma loaded_blacklist_blocks_listed_witness :
  restrict example_settings "blacklist" lookup "eve" [] ∅ (initial [])
  = (Ok VNone,
     blocked_add "eve" (info (block_message "eve" "blacklist") (initial [])))
  ∧ restrict example_settings "blacklist" lookup "frank" [] ∅ (initial [])
    = lookup "frank" [] ∅ (initial []).
Proof.
  split.
  - etransitivity.
    + apply (loaded_blacklist_blocks_listed jira_document token_environ
               example_settings _ "eve" [] load_example eq_refl).
      apply not_elem_of_empty.
    + reflexivity.
  - etransitivity.
    + apply (loaded_blacklist_blocks_listed jira_document token_environ
               example_settings _ "eve" [] load_example eq_refl).
      apply not_elem_of_empty.
    + reflexivity.
Defined.

(** For loaded settings, [with_credentials('Jira')] calls the wrapped
    function exactly when [use_jira] is set, with [_usr] and [_pwd] holding
    what [JIRA_USER] and [JIRA_PASS] hold in the environment ([None] when
    unset); with [use_jira] off the attribute [jira_user] does not exist and
    the wrapper raises [AttributeError] without calling the function. *)
Theorem loaded_credentials_follow_use_jira f environ cfg logs func args kwargs st :
  load f environ = (Ok cfg, logs) →
  with_credentials cfg "Jira" func args kwargs st
  = if _config.use_jira cfg
    then func args
           (<["_pwd" := of_optional (getenv environ "JIRA_PASS")]>
              (<["_usr" := of_optional (getenv environ "JIRA_USER")]> kwargs)) st
    else (Raise (AttributeError "jira_user"), st).
Proof.
  intros (Hu & Hp & _)%load_jira_unchecked.
  destruct (_config.use_jira cfg).
  - by apply with_credentials_jira.
  - by apply with_credentials_without_jira.
Qed.

Lemma loaded_credentials_follow_use_jira_witness :
  with_credentials full_settings "Jira" notify [VInt 1] ∅ (initial [])
  = notify [VInt 1]
      (<["_pwd" := VStr "secret"]> (<["_usr" := VStr "jira-bot"]> ∅)) (initial [])
  ∧ with_credentials open_settings "Jira" notify [VInt 1] ∅ (initial [])
    = (Raise (AttributeError "jira_user"), initial []).
Proof.
  assert (load (Parsed jira_document) full_environ
          = (Ok full_settings,
             [(DEBUG, "Attempting to read configuration file conf/config.yaml");
              (DEBUG, "Using JIRA credentials")])) as Hload
    by (vm_compute; reflexivity).
  split.
  - etransitivity.
    + apply (loaded_credentials_follow_use_jira _ _ _ _ notify [VInt 1] ∅
               (initial []) Hload).
    + vm_compute. reflexivity.
  - etransitivity.
    + apply (loaded_credentials_follow_use_jira _ _ _ _ notify [VInt 1] ∅
               (initial []) load_open_example).
    + reflexivity.
Defined.

(** For loaded settings the token [with_token] injects is never [None]: it
    is the string [GITHUB_API_TOKEN] holds for the service 'Github' and the
    string [SLACK_API_TOKEN] holds for any other service, which is also what
    [get_slack_token] returns. *)
Theorem loaded_token_is_a_string f environ cfg logs :
  load f environ = (Ok cfg, logs) →
  ∃ github slack,
    getenv environ "GITHUB_API_TOKEN" = Some github
    ∧ getenv environ "SLACK_API_TOKEN" = Some slack
    ∧ get_slack_token cfg = Some slack
    ∧ ∀ service func args kwargs st,
        with_token cfg service func args kwargs st
        = func args
            (<["_token" := VStr (if decide (service = "Github")
                                 then github else slack)]> kwargs) st.
Proof.
  intros Hload.
  destruct (load_values _ _ _ _ Hload)
    as (configs & wl & bl & _ & Hgh & Hsl & [github Hg] & [slack Hs] & _).
  exists github, slack. rewrite <- Hgh, <- Hsl.
  split; [done |]. split; [done |]. split; [done |].
  intros service func args kwargs st.
  rewrite with_token_calls. unfold token_of.
  destruct (decide (service = "Github")); by rewrite ?Hg, ?Hs.
Qed.

Lemma loaded_token_is_a_string_witness :
  with_token example_settings "Github" notify [] ∅ (initial [])
  = notify [] (<["_token" := VStr "gh-token"]> ∅) (initial [])
  ∧ with_token example_settings "Slack" notify [] ∅ (initial [])
    = notify [] (<["_token" := VStr "slack-token"]> ∅) (initial [])
  ∧ get_slack_token example_settings = Some "slack-token".
Proof.
  destruct (loaded_token_is_a_string _ _ _ _ load_example)
    as (github & slack & Hg & Hs & Hget & Hcall).
  vm_compute in Hg. vm_compute in Hs.
  injection Hg as <-. injection Hs as <-.
  split; [exact (Hcall "Github" notify [] ∅ (initial [])) |].
  split; [exact (Hcall "Slack" notify [] ∅ (initial [])) | exact Hget].
Defined.

(** For loaded settings [get_header] gives one entry, [Authorization], whose
    value is "Bearer " followed by the Github token for the service 'Github'
    and by the Slack token for any other service. *)
Theorem loaded_header_bears_token f environ cfg logs :
  load f environ = (Ok cfg, logs) →
  ∃ github slack,
    getenv environ "GITHUB_API_TOKEN" = Some github
    ∧ getenv environ "SLACK_API_TOKEN" = Some slack
    ∧ ∀ service,
        get_header cfg service
        = [("Authorization",
            "Bearer " ++ (if decide (service = "Github") then github else slack))].
Proof.
  intros Hload.
  destruct (load_values _ _ _ _ Hload)
    as (configs & wl & bl & _ & Hgh & Hsl & [github Hg] & [slack Hs] & _).
  exists github, slack. rewrite <- Hgh, <- Hsl.
  split; [done |]. split; [done |].
  intros service. unfold get_header, make_header, token_of.
  destruct (decide (service = "Github")); by rewrite ?Hg, ?Hs.
Qed.

Lemma loaded_header_bears_token_witness :
  get_header example_settings "Github" = [("Authorization", "Bearer gh-token")]
  ∧ get_header example_settings "Jira" = [("Authorization", "Bearer slack-token")].
Proof.
  destruct (loaded_header_bears_token _ _ _ _ load_example)
    as (github & slack & Hg & Hs & Hheader).
  vm_compute in Hg. vm_compute in Hs.
  injection Hg as <-. injection Hs as <-.
  split; [exact (Hheader "Github") | exact (Hheader "Jira")].
Defined.

(** For loaded settings the wrapper of [debug] calls the wrapped function
    with what [DEBUG_UID] holds in the environment as first argument
    ([None] when it is unset), whatever [uid] the caller passed, and with
    the other arguments and the state as they were. *)
Theorem loaded_debug_replaces_uid f environ cfg logs func uid args kwargs st :
  load f environ = (Ok cfg, logs) →
  debug cfg func uid args kwargs st
  = func (of_optional (getenv environ "DEBUG_UID") :: args) kwargs st.
Proof.
  intros Hload.
  destruct (load_values _ _ _ _ Hload)
    as (configs & wl & bl & _ & _ & _ & _ & _ & Huid & _).
  unfold debug. by rewrite Huid.
Qed.

Lemma loaded_debug_replaces_uid_witness :
  debug example_settings notify (VStr "U999") [VInt 1] ∅ (initial [])
  = notify [VNone; VInt 1] ∅ (initial [])
  ∧ debug full_settings notify (VStr "U999") [VInt 1] ∅ (initial [])
    = notify [VStr "U123"; VInt 1] ∅ (initial []).
Proof.
  assert (load (Parsed jira_document) full_environ
          = (Ok full_settings,
             [(DEBUG, "Attempting to read configuration file conf/config.yaml");
              (DEBUG, "Using JIRA credentials")])) as Hload
    by (vm_compute; reflexivity).
  split.
  - etransitivity.
    + apply (loaded_debug_replaces_uid _ _ _ _ notify (VStr "U999") [VInt 1] ∅
               (initial []) load_example).
    + vm_compute. reflexivity.
  - etransitivity.
    + apply (loaded_debug_replaces_uid _ _ _ _ notify (VStr "U999") [VInt 1] ∅
               (initial []) Hload).
    + vm_compute. reflexivity.
Defined.

(** ** Keyword arguments under injection *)

(** The keyword arguments the wrapped function gets from [with_token] are
    the caller's with [_token] set: a [_token] the caller passed is
    replaced, every other keyword argument is passed on as it is.  Under
    [with_credentials('Jira')], when the two attributes exist, the same holds
    for [_usr] and [_pwd]. *)
Theorem injection_overrides_and_keeps Configuration service func args kwargs st :
  (∃ new_kwargs,
     with_token Configuration service func args kwargs st
     = func args new_kwargs st
     ∧ new_kwargs !! "_token"
       = Some (of_optional (token_of Configuration service))
     ∧ ∀ k, k ≠ "_token" → new_kwargs !! k = kwargs !! k)
  ∧ ∀ usr pwd,
      _config.jira_user Configuration = Some usr →
      _config.jira_pass Configuration = Some pwd →
      ∃ new_kwargs,
        with_credentials Configuration "Jira" func args kwargs st
        = func args new_kwargs st
        ∧ new_kwargs !! "_usr" = Some (of_optional usr)
        ∧ new_kwargs !! "_pwd" = Some (of_optional pwd)
        ∧ ∀ k, k ≠ "_usr" → k ≠ "_pwd" → new_kwargs !! k = kwargs !! k.
Proof.
  split.
  - eexists. split; [apply with_token_calls |]. split.
    + apply lookup_insert_eq.
    + intros k Hk. by apply lookup_insert_ne.
  - intros usr pwd Hu Hp. eexists.
    split; [by apply with_credentials_jira |]. split; [| split].
    + rewrite lookup_insert_ne by done. apply lookup_insert_eq.
    + apply lookup_insert_eq.
    + intros k Hu' Hp'. by rewrite !lookup_insert_ne.
Qed.

Lemma injection_overrides_and_keeps_witness :
  let given : gmap string value :=
    {[ "_token" := VStr "forged"; "_usr" := VStr "root"; "channel" := VStr "dev" ]} in
  (with_token full_settings "Github" notify [] given (initial [])).1
  = Ok (VList [])
  ∧ (inv_kwargs <$> last (calls
       (with_token full_settings "Github" notify [] given (initial [])).2))
    = Some (<["_token" := VStr "gh-token"]> given)
  ∧ (inv_kwargs <$> last (calls
       (with_credentials full_settings "Jira" notify [] given (initial [])).2))
    = Some (<["_pwd" := VStr "secret"]> (<["_usr" := VStr "jira-bot"]> given)).
Proof.
  intros given.
  destruct (injection_overrides_and_keeps full_settings "Github" notify []
              given (initial [])) as [(kw & Hcall & Htoken & Hrest) Hcred].
  destruct (Hcred (Some "jira-bot") (Some "secret") eq_refl eq_refl)
    as (kw' & Hcall' & Husr & Hpwd & Hrest').
  rewrite Hcall, Hcall'.
  assert (kw = <["_token" := VStr "gh-token"]> given) as ->.
  { apply map_eq. intros k. destruct (decide (k = "_token")) as [-> | Hk].
    - rewrite Htoken. by rewrite lookup_insert_eq.
    - rewrite Hrest by done. by rewrite lookup_insert_ne. }
  assert (kw' = <["_pwd" := VStr "secret"]> (<["_usr" := VStr "jira-bot"]> given))
    as ->.
  { apply map_eq. intros k. destruct (decide (k = "_pwd")) as [-> | Hk].
    - rewrite Hpwd. by rewrite lookup_insert_eq.
    - rewrite lookup_insert_ne by done.
      destruct (decide (k = "_usr")) as [-> | Hk'].
      + rewrite Husr. by rewrite lookup_insert_eq.
      + rewrite Hrest' by done. by rewrite lookup_insert_ne. }
  repeat split.
Defined.

(** ** The access filter and the resolver together *)

Section CompositionFacts.

Variable Configuration : _config.t.

(** A list type other than 'blacklist' and 'whitelist' selects no
    collection: such a wrapper never blocks and never logs, it only keeps out
    the names other wrappers have blocked. *)
Theorem restrict_other_list_type_never_blocks list_type func name args kwargs st :
  list_type ≠ "blacklist" →
  list_type ≠ "whitelist" →
  restrict Configuration list_type func name args kwargs st
  = if decide (name ∈ blocked st) then (Ok VNone, st)
    else func name args kwargs st.
Proof.
  intros Hb Hw. unfold restrict, collection_of.
  rewrite (decide_False (P := list_type = "blacklist")) by done.
  rewrite (decide_False (P := list_type = "whitelist")) by done.
  done.
Qed.

(** Wrapping twice with the same list type changes nothing: the second
    check sees the name, the collection and [blocked] the first one saw. *)
Theorem restrict_twice_is_restrict list_type func name args kwargs st :
  restrict Configuration list_type (restrict Configuration list_type func)
    name args kwargs st
  = restrict Configuration list_type func name args kwargs st.
Proof.
  unfold restrict.
  destruct (decide (name ∈ blocked st)) as [Hin | Hout]; [done |].
  destruct (truthy _); [| done].
  destruct (contains _ name) as [present | e]; [| done].
  by destruct (xorb _ present).
Qed.

(** With both lists configured, a name not in [blocked] reaches the function
    under the two wrappers exactly when it is in the whitelist and not in the
    blacklist, in either nesting; the nesting only decides which check, the
    outer one, blocks and words the record when the name fails both. *)
Theorem restrict_both_lists func name args kwargs st :
  name ∉ blocked st →
  truthy (_config.whitelist Configuration) = true →
  truthy (_config.blacklist Configuration) = true →
  let listed := bool_decide (name ∈ names_of (_config.whitelist Configuration)) in
  let banned := bool_decide (name ∈ names_of (_config.blacklist Configuration)) in
  let block list_type :=
    (@Ok value VNone, blocked_add name (info (block_message name list_type) st)) in
  restrict Configuration "whitelist" (restrict Configuration "blacklist" func)
    name args kwargs st
  = (if negb listed then block "whitelist"
     else if banned then block "blacklist"
     else func name args kwargs st)
  ∧ restrict Configuration "blacklist" (restrict Configuration "whitelist" func)
      name args kwargs st
    = (if banned then block "blacklist"
       else if negb listed then block "whitelist"
       else func name args kwargs st).
Proof.
  intros Hfresh Hw Hb listed banned block.
  assert (collection_of Configuration "whitelist" = _config.whitelist Configuration)
    as Hcw by done.
  assert (collection_of Configuration "blacklist" = _config.blacklist Configuration)
    as Hcb by done.
  split.
  - rewrite restrict_checked by (by rewrite ?Hcw). rewrite Hcw.
    fold listed. change (bool_decide ("whitelist" = "whitelist")) with true.
    simpl. destruct listed; simpl; [| done].
    rewrite restrict_checked by (by rewrite ?Hcb). rewrite Hcb.
    fold banned. by destruct banned.
  - rewrite restrict_checked by (by rewrite ?Hcb). rewrite Hcb.
    fold banned. change (bool_decide ("blacklist" = "whitelist")) with false.
    simpl. destruct banned; simpl; [done |].
    rewrite restrict_checked by (by rewrite ?Hcw). rewrite Hcw.
    fold listed. by destruct listed.
Qed.

(** One call through [restrict] or [manually_resolve] around a function of
    another module writes at most the name it was called with: [restrict]
    leaves [mapped] as it was and adds at most that name to [blocked];
    [manually_resolve] leaves [blocked] as it was and adds at most that name
    to [mapped], never the name it maps to. *)
Theorem wrappers_write_only_the_called_name list_type func name args kwargs st :
  external func →
  (mapped (restrict Configuration list_type func name args kwargs st).2 = mapped st
   ∧ blocked (restrict Configuration list_type func name args kwargs st).2
     ⊆ {[name]} ∪ blocked st)
  ∧ (blocked (manually_resolve Configuration func name args kwargs st).2 = blocked st
     ∧ mapped (manually_resolve Configuration func name args kwargs st).2
       ⊆ {[name]} ∪ mapped st).
Proof.
  intros Hext. split.
  - unfold restrict.
    destruct (decide (name ∈ blocked st)) as [Hin | Hout];
      [split; [done | apply union_subseteq_r] |].
    assert (mapped (func name args kwargs st).2 = mapped st
            ∧ blocked (func name args kwargs st).2 ⊆ {[name]} ∪ blocked st) as Hcall.
    { destruct (Hext name args kwargs st) as [-> ->].
      split; [done | apply union_subseteq_r]. }
    destruct (truthy _); [| exact Hcall].
    destruct (contains _ name) as [present | e];
      [| split; [done | apply union_subseteq_r]].
    destruct (xorb _ present); [by split | exact Hcall].
  - assert (∀ n st', blocked (func n args kwargs st').2 = blocked st'
                     ∧ mapped (func n args kwargs st').2 = mapped st') as Hcall
      by (intros n st'; apply Hext).
    unfold manually_resolve.
    destruct (decide (name ∈ mapped st)) as [Hin | Hout].
    { destruct (map_getitem _ name) as [m | e].
      - destruct (Hcall m st) as [-> ->]. split; [done | apply union_subseteq_r].
      - split; [done | apply union_subseteq_r]. }
    destruct (map_truthy _).
    + destruct (map_contains _ name) as [[] | e].
      * destruct (map_getitem _ name) as [m | e'].
        -- destruct (Hcall m (mapped_add name (info (resolve_message name m) st)))
             as [-> ->]. by split.
        -- split; [done | apply union_subseteq_r].
      * destruct (Hcall name st) as [-> ->]. split; [done | apply union_subseteq_r].
      * split; [done | apply union_subseteq_r].
    + destruct (Hcall name st) as [-> ->]. split; [done | apply union_subseteq_r].
Qed.

(** The nesting of [restrict] and [manually_resolve] decides which name is
    checked.  For a name with a manual mapping, met for the first time, with
    [restrict] outside the list check is on the name itself and a blocked
    call leaves [mapped] and the mapping's record out; with
    [manually_resolve] outside the name is mapped and logged first, and the
    list check is on the mapped name, which is the one that joins
    [blocked]. *)
Theorem nesting_decides_the_checked_name list_type func name mapped_name args kwargs st :
  name ∉ blocked st →
  mapped_name ∉ blocked st →
  name ∉ mapped st →
  map_getitem (_config.map_users Configuration) name = Ok mapped_name →
  truthy (collection_of Configuration list_type) = true →
  let collection := names_of (collection_of Configuration list_type) in
  let resolved := mapped_add name (info (resolve_message name mapped_name) st) in
  restrict Configuration list_type (manually_resolve Configuration func)
    name args kwargs st
  = (if xorb (bool_decide (list_type = "whitelist")) (bool_decide (name ∈ collection))
     then (Ok VNone, blocked_add name (info (block_message name list_type) st))
     else func mapped_name args kwargs resolved)
  ∧ manually_resolve Configuration (restrict Configuration list_type func)
      name args kwargs st
    = (if xorb (bool_decide (list_type = "whitelist"))
               (bool_decide (mapped_name ∈ collection))
       then (Ok VNone,
             blocked_add mapped_name
               (info (block_message mapped_name list_type) resolved))
       else func mapped_name args kwargs resolved).
Proof.
  intros Hn Hm Hfresh Hget Hcoll collection resolved. split.
  - rewrite restrict_checked by done. fold collection.
    destruct (xorb _ _); [done |].
    by apply manually_resolve_first.
  - rewrite (manually_resolve_first _ _ _ _ _ _ mapped_name) by done.
    fold resolved. by rewrite restrict_checked.
Qed.

End CompositionFacts.

Lemma restrict_other_list_type_never_blocks_witness :
  restrict example_settings "none" lookup "bob" [] ∅ (initial [])
  = lookup "bob" [] ∅ (initial []).
Proof.
  etransitivity.
  - by apply (restrict_other_list_type_never_blocks example_settings "none"
                lookup "bob" [] ∅ (initial [])).
  - reflexivity.
Defined.

Lemma restrict_both_lists_witness :
  restrict renaming_settings "whitelist" (restrict renaming_settings "blacklist" lookup)
    "jdoe" [] ∅ (initial [])
  = (Ok VNone,
     blocked_add "jdoe" (info "User jdoe  in blacklist, blocking lookup" (initial [])))
  ∧ restrict renaming_settings "blacklist" (restrict renaming_settings "whitelist" lookup)
      "bob" [] ∅ (initial [])
    = (Ok VNone,
       blocked_add "bob" (info "User bob not in whitelist, blocking lookup" (initial []))).
Proof.
  split.
  - etransitivity.
    + apply (proj1 (restrict_both_lists renaming_settings lookup "jdoe" [] ∅
                      (initial []) (not_elem_of_empty _) eq_refl eq_refl)).
    + vm_compute. reflexivity.
  - etransitivity.
    + apply (proj2 (restrict_both_lists renaming_settings lookup "bob" [] ∅
                      (initial []) (not_elem_of_empty _) eq_refl eq_refl)).
    + vm_compute. reflexivity.
Defined.

Lemma wrappers_write_only_the_called_name_witness :
  mapped (restrict example_settings "whitelist" lookup "bob" [] ∅ (initial [])).2
  = ∅
  ∧ blocked (manually_resolve example_settings lookup "jdoe" [] ∅ (initial [])).2
    = ∅
  ∧ mapped (manually_resolve example_settings lookup "jdoe" [] ∅ (initial [])).2
    ⊆ {[ "jdoe" ]} ∪ ∅.
Proof.
  destruct (wrappers_write_only_the_called_name example_settings "whitelist"
              lookup "bob" [] ∅ (initial []) (business_external _ _))
    as [[Hm _] _].
  destruct (wrappers_write_only_the_called_name example_settings "whitelist"
              lookup "jdoe" [] ∅ (initial []) (business_external _ _))
    as [_ [Hb Hsub]].
  split; [exact Hm |]. split; [exact Hb | exact Hsub].
Defined.

Lemma nesting_decides_the_checked_name_witness :
  restrict renaming_settings "whitelist" (manually_resolve renaming_settings lookup)
    "jdoe" [] ∅ (initial [])
  = lookup "john.doe" [] ∅
      (mapped_add "jdoe" (info (resolve_message "jdoe" "john.doe") (initial [])))
  ∧ manually_resolve renaming_settings (restrict renaming_settings "whitelist" lookup)
      "jdoe" [] ∅ (initial [])
    = (Ok VNone,
       blocked_add "john.doe"
         (info "User john.doe not in whitelist, blocking lookup"
            (mapped_add "jdoe"
               (info (resolve_message "jdoe" "john.doe") (initial []))))).
Proof.
  assert (map_getitem (_config.map_users renaming_settings) "jdoe" = Ok "john.doe")
    as Hget by (vm_compute; reflexivity).
  destruct (nesting_decides_the_checked_name renaming_settings "whitelist" lookup
              "jdoe" "john.doe" [] ∅ (initial [])
              (not_elem_of_empty _) (not_elem_of_empty _) (not_elem_of_empty _)
              Hget eq_refl) as [Houter Hinner].
  split.
  - etransitivity; [exact Houter | vm_compute; reflexivity].
  - etransitivity; [exact Hinner | vm_compute; reflexivity].
Defined.

(** ** More on the repository generator *)

Lemma looked_up_no_repository repositories owners :
  Forall (λ entry, entry.2 = []) repositories →
  looked_up repositories owners = [].
Proof.
  intros Hempty.
  assert (∀ owner rs, odict_get repositories owner = Some rs → rs = []) as Hget.
  { induction Hempty as [| [k v] d Hk _ IH]; intros owner rs; [discriminate |].
    simpl. destruct (decide (owner = k)); [| by apply IH].
    simpl in Hk. by intros [= <-]. }
  induction owners as [| owner owners IH]; [done |].
  simpl. rewrite IH.
  destruct (odict_get repositories owner) as [rs|] eqn:Hrs; [| done].
  by rewrite (Hget _ _ Hrs).
Qed.

Section MoreGeneratorFacts.

Variable Configuration : _config.t.

(** What [collect] returns is what the frame had left. *)
Lemma collect_inv fuel : ∀ g heap fr r heap',
  heap !! g = Some fr → ready fr →
  collect Configuration fuel g heap = Some (r, heap') →
  r = Ok (remaining Configuration fr) ∧ heap' = <[g := Finished]> heap.
Proof.
  induction fuel as [| fuel IH]; intros g heap fr r heap' Hg Hready; [discriminate |].
  simpl.
  destruct (next_ready Configuration g heap fr Hg Hready)
    as [[Hrem ->] | (p & fr' & -> & Hfr & Hrem)].
  - intros [= <- <-]. by rewrite Hrem.
  - destruct (collect Configuration fuel g (<[g := fr']> heap))
      as [[r' heap'']|] eqn:Hrest; [| discriminate].
    destruct (IH g (<[g := fr']> heap) fr' r' heap'') as [-> ->]; [| done | done |].
    { apply list_lookup_insert_eq. by eapply lookup_lt_Some. }
    intros [= <- <-]. by rewrite Hrem, list_insert_insert_eq.
Qed.

(** When no owner of the mapping has a repository, which covers an empty
    mapping passed explicitly, the first [next] raises [StopIteration]; a
    mapping that is given, empty or not, is the one iterated, and the
    configured repositories are then not consulted. *)
Theorem generator_without_repository_stops repos heap :
  Forall (λ entry, entry.2 = []) (default (_config.repositories Configuration) repos) →
  let '(g, heap') := repository_generator repos heap in
  next Configuration g heap' = Some (Raise StopIteration, <[g := Finished]> heap').
Proof.
  intros Hempty. simpl.
  assert ((heap ++ [Created repos])%list !! length heap = Some (Created repos))
    as Hg by by apply list_lookup_middle.
  destruct (next_ready Configuration _ _ _ Hg I)
    as [[_ Hnext] | (p & fr' & _ & _ & Hrem)]; [exact Hnext |].
  simpl in Hrem. by rewrite looked_up_no_repository in Hrem.
Qed.

(** A generator taken from part of the way resumes where it stopped: the
    items taken first, followed by the items collected afterwards, are all
    the pairs of the mapping, each once and in order. *)
Theorem generator_resumes_after_islice repos heap n fuel :
  let repositories := default (_config.repositories Configuration) repos in
  NoDup (odict_keys repositories) →
  length (pairs repositories) < fuel →
  let '(g, heap1) := repository_generator repos heap in
  let '(first, heap2) := islice Configuration n g heap1 in
  first = take n (pairs repositories)
  ∧ collect Configuration fuel g heap2
    = Some (Ok (drop n (pairs repositories)), <[g := Finished]> heap2).
Proof.
  intros repositories Hdict Hfuel. simpl.
  assert ((heap ++ [Created repos])%list !! length heap = Some (Created repos))
    as Hg by by apply list_lookup_middle.
  assert (remaining Configuration (Created repos) = pairs repositories) as Hrem
    by (simpl; by apply looked_up_keys).
  destruct (islice_some Configuration n _ _ _ Hg I) as (fr' & -> & Hfr' & Hrem').
  rewrite Hrem in Hrem' |- *. split; [done |].
  rewrite <- Hrem'. apply collect_all; [| done |].
  - apply list_lookup_insert_eq. by eapply lookup_lt_Some.
  - rewrite Hrem', length_drop. lia.
Qed.

(** Every pair the generator of the configured repositories yields can be
    handed to a function under the [repositories] decorator: for the owner of
    the pair the decorator does not raise, and the list it injects holds the
    repository of the pair. *)
Theorem generated_pairs_are_configured heap fuel items heap' :
  let '(g, heap1) := repository_generator None heap in
  collect Configuration fuel g heap1 = Some (Ok items, heap') →
  ∀ owner repository, (owner, repository) ∈ items →
    ∃ repos,
      repository ∈ repos
      ∧ ∀ func args kwargs st,
          repositories Configuration func owner args kwargs st
          = func owner args (<["_repositories" := VList (VStr <$> repos)]> kwargs) st.
Proof.
  simpl. intros Hcollect owner repository Hin.
  assert ((heap ++ [Created None])%list !! length heap = Some (Created None))
    as Hg by by apply list_lookup_middle.
  destruct (collect_inv _ _ _ _ _ _ Hg I Hcollect) as [[= ->] _].
  simpl in Hin. unfold looked_up in Hin.
  apply list_elem_of_In, in_flat_map in Hin as (o & _ & Hin).
  apply list_elem_of_In in Hin.
  destruct (odict_get (_config.repositories Configuration) o) as [rs|] eqn:Hrs;
    [| by apply elem_of_nil in Hin].
  apply list_elem_of_fmap in Hin as (r & [= -> ->] & Hr).
  exists rs. split; [done |].
  intros func args kwargs st. unfold repositories, odict_getitem. by rewrite Hrs.
Qed.

End MoreGeneratorFacts.

Lemma generator_without_repository_stops_witness :
  next example_settings 0 [Created (Some [])] = Some (Raise StopIteration, [Finished])
  ∧ next example_settings 0 [Created (Some [("octo", []); ("solo", [])])]
    = Some (Raise StopIteration, [Finished]).
Proof.
  split.
  - apply (generator_without_repository_stops example_settings (Some []) []).
    constructor.
  - apply (generator_without_repository_stops example_settings
             (Some [("octo", []); ("solo", [])]) []).
    repeat constructor.
Defined.

Lemma generator_resumes_after_islice_witness :
  (islice example_settings 1 0 [Created None]).1 = [("octo", "nag")]
  ∧ collect example_settings 4 0 (islice example_settings 1 0 [Created None]).2
    = Some (Ok [("octo", "cat"); ("solo", "tool")],
            <[0 := Finished]> (islice example_settings 1 0 [Created None]).2).
Proof.
  assert (NoDup (odict_keys (_config.repositories example_settings))) as Hdict.
  { apply (bool_decide_unpack _). vm_compute. exact I. }
  assert (length (pairs (_config.repositories example_settings)) < 4) as Hfuel.
  { vm_compute. lia. }
  exact (generator_resumes_after_islice example_settings None [] 1 4
           Hdict Hfuel).
Defined.

Lemma generated_pairs_are_configured_witness :
  collect example_settings 4 0 [Created None]
  = Some (Ok [("octo", "nag"); ("octo", "cat"); ("solo", "tool")], [Finished])
  ∧ ∃ repos,
      "tool" ∈ repos
      ∧ repositories example_settings lookup "solo" [] ∅ (initial [])
        = lookup "solo" [] (<["_repositories" := VList (VStr <$> repos)]> ∅)
            (initial []).
Proof.
  assert (collect example_settings 4 0 [Created None]
          = Some (Ok [("octo", "nag"); ("octo", "cat"); ("solo", "tool")],
                  [Finished])) as Hcollect by (vm_compute; reflexivity).
  split; [exact Hcollect |].
  destruct (generated_pairs_are_configured example_settings [] 4 _ _ Hcollect
              "solo" "tool") as (repos & Hin & Hcall).
  { apply list_elem_of_further, list_elem_of_further, list_elem_of_here. }
  exists repos. split; [exact Hin | apply Hcall].
Defined.
